(** * lei-mysql: the SQL escaper, the condition compiler, the statement
      builders and the pooled executor of [lib/index.js]

    A shallow embedding of [lib/index.js] and the properties of its
    specification.  JavaScript values are an inductive type, exceptions are
    an error monad ([completion]), and what the program does to the
    connection pool and to the caller's callback is a trace of events
    ([io]). *)

From Stdlib Require Import String Ascii List ZArith Lia Bool DecimalString.
From Stdlib Require Import DecimalPos DecimalZ Permutation.
Import ListNotations.
Local Open Scope list_scope.
Local Open Scope string_scope.

Set Warnings "-register-all".

(* ================================================================== *)
(** * JavaScript values *)

(** The integers that are all doubles and that [n + ''] prints digit for
    digit: those between -2^53 and 2^53. *)
Definition safe_integer (z : Z) : bool :=
  (Z.abs z <=? 9007199254740992)%Z.

(** A JavaScript number.  [NInt z safe] is the double that is the integer
    [z], which is within the range above; fractions and the integral doubles
    beyond the range are not modelled. *)
Inductive number :=
| NInt (z : Z) (safe : safe_integer z = true)
| NNaN
| NInfinity (negative : bool).

(** Objects that are neither arrays nor plain records. *)
Inductive exotic :=
| Date (time : Z)
| Buffer (bytes : list ascii)
| Function (name : string)
| Error (message : string).

(** A string is a sequence of code units; the model keeps the units below
    256, which is where every character this program looks at lives.
    [VObj props] is a plain record: its own enumerable properties in the
    order in which [for ... in] and [Object.keys] enumerate them. *)
Inductive value :=
| VUndefined
| VNull
| VBool (b : bool)
| VNum (n : number)
| VStr (s : string)
| VExotic (e : exotic)
| VArr (elems : list value)
| VObj (props : list (string * value)).

Inductive exn :=
| ReferenceError (message : string)
| TypeError (message : string).

(** The outcome of evaluating an expression or a function body. *)
Inductive completion (A : Type) :=
| Return (a : A)
| Throw (e : exn).
Arguments Return {A} a.
Arguments Throw {A} e.

Definition bind {A B : Type} (c : completion A) (k : A -> completion B)
  : completion B :=
  match c with
  | Return a => k a
  | Throw e => Throw e
  end.

Notation "x <- c ;; k" := (bind c (fun x => k))
  (at level 61, c at next level, right associativity).

(** [xs.map(f)] for an [f] that may raise: left to right, the first
    exception ends the loop. *)
Definition mapM {A B : Type} (f : A -> completion B)
  : list A -> completion (list B) :=
  fix go (xs : list A) : completion (list B) :=
    match xs with
    | [] => Return []
    | x :: r => y <- f x ;; ys <- go r ;; Return (y :: ys)
    end.

(** ** Primitive operations *)

Definition typeof (v : value) : string :=
  match v with
  | VUndefined => "undefined"
  | VNull => "object"
  | VBool _ => "boolean"
  | VNum _ => "number"
  | VStr _ => "string"
  | VExotic (Function _) => "function"
  | VExotic _ | VArr _ | VObj _ => "object"
  end.

(** ToBoolean. *)
Definition truthy (v : value) : bool :=
  match v with
  | VUndefined | VNull => false
  | VBool b => b
  | VNum (NInt z _) => negb (z =? 0)%Z
  | VNum NNaN => false
  | VNum (NInfinity _) => true
  | VStr s => negb (s =? "")
  | VExotic _ | VArr _ | VObj _ => true
  end.

Definition Array_isArray (v : value) : bool :=
  match v with VArr _ => true | _ => false end.

Definition Buffer_isBuffer (v : value) : bool :=
  match v with VExotic (Buffer _) => true | _ => false end.

Definition instanceof_Date (v : value) : bool :=
  match v with VExotic (Date _) => true | _ => false end.

(** [n + ''] *)
Definition number_to_string (n : number) : string :=
  match n with
  | NInt z _ => NilZero.string_of_int (Z.to_int z)
  | NNaN => "NaN"
  | NInfinity false => "Infinity"
  | NInfinity true => "-Infinity"
  end.

(** [xs.join(sep)] on an array of strings. *)
Definition join (sep : string) (xs : list string) : string :=
  String.concat sep xs.

(** ** Strings *)

Definition lower (c : ascii) : ascii :=
  let n := nat_of_ascii c in
  if ((65 <=? n) && (n <=? 90) ||
      (192 <=? n) && (n <=? 222) && negb (n =? 215))%nat
  then ascii_of_nat (n + 32) else c.

Definition upper (c : ascii) : ascii :=
  let n := nat_of_ascii c in
  if (97 <=? n)%nat && (n <=? 122)%nat then ascii_of_nat (n - 32) else c.

Fixpoint map_string (f : ascii -> ascii) (s : string) : string :=
  match s with
  | EmptyString => EmptyString
  | String c r => String (f c) (map_string f r)
  end.

(** [s.toLowerCase()], on code units below 256. *)
Definition toLowerCase (s : string) : string := map_string lower s.

(** [s.toUpperCase()], on the letters a-z: the program applies it to the
    names of its two logical operators only. *)
Definition toUpperCase (s : string) : string := map_string upper s.

(** [s.substr(1)] *)
Definition substr1 (s : string) : string :=
  match s with
  | EmptyString => EmptyString
  | String _ r => r
  end.

(** [s.indexOf(needle)]: the first position, or -1. *)
Definition indexOf (s needle : string) : Z :=
  match index 0 needle s with
  | Some n => Z.of_nat n
  | None => (-1)%Z
  end.

(** The decimal form of an array index, as a property name. *)
Definition index_key (i : nat) : string :=
  NilZero.string_of_uint (Nat.to_uint i).

(* ================================================================== *)
(** * The host *)

(** What depends on the JavaScript engine and its version rather than on
    this program: how a date, a buffer, a function or an error object
    prints, which properties [for ... in] finds on them, and what reading a
    property that is not an own data property of the model gives. *)
Record host := {
  host_toString : exotic -> string;
  host_keys : exotic -> list string;
  host_get : value -> string -> value
}.

(* ================================================================== *)
(** * Events, callbacks and the pool *)

(** What the program does to its collaborators, in order: it asks the pool
    for a connection, hands a statement to the connection, releases the
    connection, calls the caller's callback. *)
Inductive event :=
| EvGetConnection
| EvConnQuery (args : list value)
| EvRelease
| EvCallback (args : list value).

(** A computation that acts on the collaborators and may raise: the events
    so far, and how it ended. *)
Definition io (A : Type) : Type := (list event * completion A)%type.

Definition io_bind {A B : Type} (c : io A) (k : A -> io B) : io B :=
  match c with
  | (t, Return a) => let (t', r) := k a in ((t ++ t')%list, r)
  | (t, Throw e) => (t, Throw e)
  end.

Notation "x <~ c ;; k" := (io_bind c (fun x => k))
  (at level 61, c at next level, right associativity).
Notation "c ;;; k" := (io_bind c (fun _ => k))
  (at level 61, right associativity).

Definition emit (e : event) : io unit := ([e], Return tt).

Definition lift {A : Type} (c : completion A) : io A := ([], c).

(** A callback takes its argument list. *)
Definition callback_t : Type := list value -> io unit.

(** The caller's callback, from where this program stands: being called is
    all that is seen of it. *)
Definition caller : callback_t := fun args => emit (EvCallback args).

(** [connection.query(args..., cb)] of the driver: it calls [cb] once with
    an argument list, or it raises before it returns. *)
Inductive driver_reply :=
| Replies (arguments : list value)
| Raises (e : exn).

(** The pool: [getConnection] calls back with [(err, conn)]. *)
Record pool := {
  getConnection_err : value;
  conn_query : list value -> driver_reply
}.

Record MySQLPool := {
  _options_timezone : value;
  _pool : pool
}.

(** How [new MySQLPool(options)] ends when no property read raises: with
    the instance, of which the model keeps [_options] and the argument of
    [mysql.createPool], or with the [Error] it throws. *)
Inductive construction :=
| Created (_options createPool : value)
| ThrowsError (message : string).

(** ** Collaborators for the examples *)

(** A host whose other objects have no enumerable property. *)
Definition plain_host : host := {|
  host_toString := fun _ => "[object Object]";
  host_keys := fun _ => [];
  host_get := fun _ _ => VUndefined
|}.

(** The number of an integer literal within the range. *)
Abbreviation int z := (VNum (NInt z eq_refl)) (only parsing).

(** The arguments of a driver that answers with no error and two rows. *)
Definition two_rows : list value :=
  [VNull; VArr [VObj [("id", int 1)]; VObj [("id", int 2)]]].

(** A pool that hands out a connection whose driver behaves as [reply]. *)
Definition serving (reply : driver_reply) : MySQLPool := {|
  _options_timezone := VUndefined;
  _pool := {| getConnection_err := VNull; conn_query := fun _ => reply |}
|}.

(** A pool that fails to hand out a connection. *)
Definition failing (err : value) : MySQLPool := {|
  _options_timezone := VUndefined;
  _pool := {| getConnection_err := err;
              conn_query := fun _ => Replies [] |}
|}.

Section Program.

Variable H : host.

(** ToString, as string concatenation applies it.  A plain record is taken
    to print as every record without a [toString] of its own does. *)
Fixpoint ToString (v : value) : string :=
  match v with
  | VUndefined => "undefined"
  | VNull => "null"
  | VBool true => "true"
  | VBool false => "false"
  | VNum n => number_to_string n
  | VStr s => s
  | VExotic e => host_toString H e
  | VArr elems =>
      join ","
        (map (fun x => match x with
                       | VUndefined | VNull => ""
                       | _ => ToString x
                       end) elems)
  | VObj _ => "[object Object]"
  end.

(* ================================================================== *)
(** * SqlStringEscape *)

(** The identifiers bound in the scope of [lib/index.js]: its four
    [require]s, its functions, and the globals of the runtime it names. *)
Definition module_scope : list string :=
  [ "util"; "events"; "mysql"; "debug"; "exports"; "module"; "require";
    "MySQLPool"; "SqlStringEscape"; "parseCondition";
    "parseArrayCondition"; "parseObjectCondition";
    "Array"; "Buffer"; "Date"; "Error"; "Object"; "parseInt" ].

(** [x.m(...)] for a free identifier [x]: the reference is resolved before
    any argument is evaluated, and an identifier bound nowhere raises.  None
    of the bindings above has a member that this program calls. *)
Definition call_member (x m : string) : completion string :=
  if existsb (String.eqb x) module_scope
  then Throw (TypeError (x ++ "." ++ m ++ " is not a function"))
  else Throw (ReferenceError (x ++ " is not defined")).

(** The character class of the regular expression in [SqlStringEscape]:
    NUL, LF, CR, BS, TAB, backslash, quote, double quote, SUB. *)
Definition escaped_class : list ascii :=
  [ "000"; "010"; "013"; "008"; "009"; "092"; "039"; "034"; "026" ]%char.

Definition in_class (c : ascii) : bool :=
  existsb (Ascii.eqb c) escaped_class.

(** The replacement function of [SqlStringEscape]. *)
Definition replacement (s : ascii) : string :=
  if (s =? "000")%char then "\0"
  else if (s =? "010")%char then "\n"
  else if (s =? "013")%char then "\r"
  else if (s =? "008")%char then "\b"
  else if (s =? "009")%char then "\t"
  else if (s =? "026")%char then "\Z"
  else String "\" (String s "").

(** [val.replace(/[...]/g, f)] for a one-character class. *)
Fixpoint replace (f : ascii -> string) (val : string) : string :=
  match val with
  | EmptyString => EmptyString
  | String c r =>
      (if in_class c then f c else String c EmptyString) ++ replace f r
  end.

Definition quote (val : string) : string :=
  "'" ++ replace replacement val ++ "'".

(** [SqlStringEscape].  Its four calls into [SqlString] raise, so what the
    code goes on to do with the result of [dateToString] is never reached. *)
Definition SqlStringEscape (val stringifyObjects timeZone : value)
  : completion string :=
  match val with
  | VUndefined | VNull => Return "NULL"
  | VBool b => Return (if b then "true" else "false")
  | VNum n => Return (number_to_string n)
  | _ =>
      if instanceof_Date val then
        call_member "SqlString" "dateToString"
      else if Buffer_isBuffer val then
        call_member "SqlString" "bufferToString"
      else if Array_isArray val then
        call_member "SqlString" "arrayToList"
      else if typeof val =? "object" then
        if truthy stringifyObjects then
          Return (quote (ToString val))
        else
          call_member "SqlString" "objectToValues"
      else
        match val with
        | VStr s => Return (quote s)
        | _ => Throw (TypeError "val.replace is not a function")
        end
  end.

(** [MySQLPool.prototype.escape]; [timezone] is [this._options.timezone]. *)
Definition escape (timezone : value) (value_ : value) : completion string :=
  SqlStringEscape value_ (VBool false) timezone.

(* ================================================================== *)
(** * Properties of objects *)

Definition props := list (string * value).

Fixpoint lookup (k : string) (o : props) : option value :=
  match o with
  | [] => None
  | (k', v) :: r => if k =? k' then Some v else lookup k r
  end.

(** The members of [Object.prototype], which every plain record inherits
    and none of which is enumerable. *)
Definition Object_prototype : list string :=
  [ "constructor"; "toString"; "toLocaleString"; "valueOf";
    "hasOwnProperty"; "isPrototypeOf"; "propertyIsEnumerable";
    "__defineGetter__"; "__defineSetter__"; "__lookupGetter__";
    "__lookupSetter__"; "__proto__" ].

Definition inherited (k : string) : bool :=
  existsb (String.eqb k) Object_prototype.

(** [k] as an array index: the canonical decimal form of a number below
    2^32 - 1. *)
Definition array_index (k : string) : option N :=
  match NilZero.uint_of_string k with
  | Some u =>
      let n := N.of_uint u in
      if (NilZero.string_of_uint (N.to_uint n) =? k) && (n <? 4294967295)%N
      then Some n else None
  | None => None
  end.

(** [o[k]] on a plain record: the own property, else the inherited one. *)
Definition get_record (o : props) (k : string) : value :=
  match lookup k o with
  | Some v => v
  | None =>
      if inherited k then
        if k =? "__proto__" then VObj [] else VExotic (Function k)
      else VUndefined
  end.

(** [o[k]] *)
Definition get (o : value) (k : string) : completion value :=
  match o with
  | VUndefined | VNull =>
      Throw (TypeError ("Cannot read property '" ++ k ++ "' of "
                        ++ ToString o))
  | VObj o' => Return (get_record o' k)
  | VArr elems =>
      match array_index k with
      | Some n => Return (nth (N.to_nat n) elems VUndefined)
      | None => Return (host_get H o k)
      end
  | _ => Return (host_get H o k)
  end.

Definition indices (n : nat) : list string := map index_key (seq 0 n).

(** The property names [for (var i in o)] goes through, in order. *)
Definition for_in (o : value) : list string :=
  match o with
  | VObj o' => map fst o'
  | VArr elems => indices (List.length elems)
  | VStr s => indices (String.length s)
  | VExotic e => host_keys H e
  | _ => []
  end.

Fixpoint set_own (k : string) (v : value) (o : props) : props :=
  match o with
  | [] => []
  | (k', v') :: r =>
      if k =? k' then (k', v) :: r else (k', v') :: set_own k v r
  end.

(** A new array-index property goes among the index properties, which come
    first and in ascending order. *)
Fixpoint put_index (n : N) (k : string) (v : value) (o : props) : props :=
  match o with
  | [] => [(k, v)]
  | (k', v') :: r =>
      match array_index k' with
      | Some n' =>
          if (n <? n')%N then (k, v) :: o else (k', v') :: put_index n k v r
      | None => (k, v) :: o
      end
  end.

(** [o[k] = v] on a plain record; any other new property goes last. *)
Definition put (o : props) (k : string) (v : value) : props :=
  match lookup k o with
  | Some _ => set_own k v o
  | None =>
      match array_index k with
      | Some n => put_index n k v o
      | None => (o ++ [(k, v)])%list
      end
  end.

Definition Object_keys (o : props) : list string := map fst o.

(* ================================================================== *)
(** * The condition compiler *)

Definition backquote (f : string) : string := "`" ++ f ++ "`".

(** [SqlStringEscape(w)], as [parseArrayCondition] and
    [parseObjectCondition] call it: one argument. *)
Definition SqlStringEscape1 (w : value) : completion string :=
  SqlStringEscape w VUndefined VUndefined.

(** [v === s] for a string literal [s], as [switch] compares. *)
Definition is_string (v : value) (s : string) : bool :=
  match v with
  | VStr s' => s' =? s
  | _ => false
  end.

(** [parseArrayCondition].  [w[1]], [w[2]] and [w.slice(1)] are read by
    matching on the elements; an index past the end reads [undefined], on
    which the function is [SqlStringEscape1]. *)
Fixpoint parseArrayCondition (w : value) : completion string :=
  match w with
  | VArr elems =>
      let w0 := nth 0 elems VUndefined in
      let w1 := nth 1 elems VUndefined in
      ret <-
        (if is_string w0 "$and" || is_string w0 "$or" then
           let c := toUpperCase (substr1 (ToString w0)) in
           parts <-
             match elems with
             | _ :: slice1 => mapM parseArrayCondition slice1
             | [] => Return []
             end ;;
           Return (join (" " ++ c ++ " ") parts)
         else if is_string w0 "$not" then
           r <-
             match elems with
             | _ :: w1 :: _ => parseArrayCondition w1
             | _ => SqlStringEscape1 VUndefined
             end ;;
           Return ("NOT " ++ r)
         else
           match elems with
           | [] => Return (ToString (VBool false))
           | [_] => Return (ToString w)
           | [_; w1] =>
               r <- parseArrayCondition w1 ;;
               Return ("`" ++ ToString w0 ++ "`=" ++ r)
           | _ :: _ :: w2 :: _ =>
               r <- parseArrayCondition w2 ;;
               Return ("`" ++ ToString w0 ++ "` " ++ ToString w1
                       ++ " " ++ r)
           end) ;;
      Return (" (" ++ ret ++ ") ")
  | _ => SqlStringEscape1 w
  end.

Definition parseObjectCondition (w : value) : completion string :=
  list <- mapM (fun i =>
                  wi <- get w i ;;
                  e <- SqlStringEscape1 wi ;;
                  Return ("`" ++ i ++ "`=" ++ e))
               (for_in w) ;;
  Return (join " AND " list).

(** [parseCondition] returns a string, or [false]. *)
Definition parseCondition (w : value) : completion value :=
  if typeof w =? "string" then Return w
  else if Array_isArray w then
    s <- parseArrayCondition w ;; Return (VStr s)
  else if truthy w && (typeof w =? "object") then
    s <- parseObjectCondition w ;; Return (VStr s)
  else Return (VBool false).


(* ================================================================== *)
(** * The pooled executor *)

Variable this : MySQLPool.

(** [MySQLPool.prototype.query]: [args] are the arguments before the
    callback, which is the last one. *)
Definition query (args : list value) (callback : callback_t) : io unit :=
  emit EvGetConnection ;;;
  let err := getConnection_err (_pool this) in
  if truthy err then callback [err]
  else
    emit (EvConnQuery args) ;;;
    match conn_query (_pool this) args with
    | Replies arguments =>
        emit EvRelease ;;;
        callback arguments
    | Raises e => lift (Throw e)
    end.

Definition this_escape (value_ : value) : completion string :=
  escape (_options_timezone this) value_.

(* ================================================================== *)
(** * The statement builders *)

Definition newline : string := String "010" EmptyString.

(** [v && typeof v === 'object'] *)
Definition object_like (v : value) : bool :=
  truthy v && (typeof v =? "object").

(** [v || ''] *)
Definition or_empty (v : value) : value :=
  if truthy v then v else VStr "".

(** The first loop of [insert]: the keys of every item, into [fileds]. *)
Definition collect (fileds : props) (item : value) : props :=
  fold_left
    (fun fileds i =>
       if negb (truthy (get_record fileds i))
       then put fileds i (VBool true) else fileds)
    (for_in item) fileds.

(** [insert], from its first loop to the SQL text. *)
Definition insert_sql (table : string) (data : list value)
  : completion string :=
  let fileds := fold_left collect data [] in
  let fileds := Object_keys fileds in
  values <- mapM (fun item =>
                    mapM (fun f => v <- get item f ;; Return (or_empty v))
                         fileds)
                 data ;;
  let fileds := map (fun f => "`" ++ f ++ "`") fileds in
  values <- mapM (fun line =>
                    cells <- mapM this_escape line ;;
                    Return ("(" ++ join "," cells ++ ")"))
                 values ;;
  let values := join ("," ++ newline) values in
  Return ("INSERT INTO `" ++ table ++ "`(" ++ join "," fileds
          ++ ") VALUES" ++ newline ++ values).

Definition insert (table : string) (data : value) (callback : callback_t)
  : io unit :=
  let data := match data with VArr elems => elems | _ => [data] end in
  let data0 := nth 0 data VUndefined in
  if negb (object_like data0) then
    callback [VExotic (Error "Bad data format.")]
  else
    sql <~ lift (insert_sql table data) ;;
    query [VStr sql] callback.

(** An optional [tail]: [None] when the callback stands in its place. *)
Definition tail_or_empty (tail : option string) : string :=
  match tail with
  | Some t => t
  | None => ""
  end.

Definition update_sql (table : string) (where_ : value) (set_ : list string)
  (tail : string) : string :=
  "UPDATE `" ++ table ++ "` SET " ++ join "," set_ ++ " WHERE "
  ++ ToString where_ ++ " " ++ tail.

(** The loop of [update] that fills [set]. *)
Definition update_set (data : value) : completion (list string) :=
  mapM (fun i =>
          v <- get data i ;;
          e <- this_escape v ;;
          Return ("`" ++ i ++ "`=" ++ e))
       (for_in data).

Definition update (table : string) (where_ data : value)
  (tail : option string) (callback : callback_t) : io unit :=
  let tail := tail_or_empty tail in
  where_ <~ lift (parseCondition where_) ;;
  if negb (object_like data) then
    callback [VExotic (Error "Data must be an object.")]
  else
    set_ <~ lift (update_set data) ;;
    query [VStr (update_sql table where_ set_ tail)] callback.

Definition delete_sql (table : string) (where_ : value) (tail : string)
  : string :=
  "DELETE FROM `" ++ table ++ "` WHERE " ++ ToString where_ ++ " " ++ tail.

Definition delete (table : string) (where_ : value) (tail : option string)
  (callback : callback_t) : io unit :=
  let tail := tail_or_empty tail in
  where_ <~ lift (parseCondition where_) ;;
  query [VStr (delete_sql table where_ tail)] callback.

Definition select_fields (fields : value) : string :=
  match fields with
  | VArr items =>
      join ", " (map (fun item => "`" ++ ToString item ++ "`") items)
  | _ => ToString fields
  end.

Definition select_sql (table : string) (fields : string) (where_ : value)
  (tail : string) : string :=
  "SELECT " ++ fields ++ " FROM `" ++ table ++ "` WHERE "
  ++ ToString where_ ++ " " ++ tail.

Definition select (table : string) (fields where_ : value)
  (tail : option string) (callback : callback_t) : io unit :=
  let tail := tail_or_empty tail in
  let fields := select_fields fields in
  where_ <~ lift (parseCondition where_) ;;
  query [VStr (select_sql table fields where_ tail)] callback.

Definition selectOne_tail (tail : option string) : string :=
  let tail := tail_or_empty tail in
  if (indexOf (toLowerCase tail) "limit " =? -1)%Z
  then tail ++ " LIMIT 1" else tail.

(** [list && list[0]] *)
Definition first_of (list : value) : completion value :=
  if truthy list then get list "0" else Return list.

Definition selectOne (table : string) (fields where_ : value)
  (tail : option string) (callback : callback_t) : io unit :=
  let tail := selectOne_tail tail in
  select table fields where_ (Some tail)
    (fun arguments =>
       let err := nth 0 arguments VUndefined in
       let list := nth 1 arguments VUndefined in
       if truthy err then callback [err]
       else
         row <~ lift (first_of list) ;;
         callback [VNull; row]).


(** The second loop of [insert]: a line of values for each item. *)
Definition insert_values (fileds : list string) (data : list value)
  : completion (list (list value)) :=
  mapM (fun item =>
          mapM (fun f => v <- get item f ;; Return (or_empty v)) fileds)
       data.

(* ================================================================== *)
(** * The constructor *)

(** [v > 0]: [undefined] converts to NaN, [null] to 0, [true] to 1.  What
    converting a text or an object to a number gives is the engine's
    business: [number_above_zero] tells whether it is above zero. *)
Definition greater_than_zero (number_above_zero : value -> bool) (v : value)
  : bool :=
  match v with
  | VUndefined | VNull => false
  | VBool b => b
  | VNum (NInt z _) => (0 <? z)%Z
  | VNum NNaN => false
  | VNum (NInfinity negative) => negb negative
  | _ => number_above_zero v
  end.

(** [new MySQLPool(options)], up to the call of [mysql.createPool]. *)
Definition MySQLPool_new (number_above_zero : value -> bool)
  (options : value) : completion construction :=
  let greater_than_zero := greater_than_zero number_above_zero in
  let options := if truthy options then options else VObj [] in
  host <- get options "host" ;;
  if negb (truthy host) then Return (ThrowsError "Invalid host.") else
  port <- get options "port" ;;
  if negb (greater_than_zero port)
  then Return (ThrowsError "Invalid port.") else
  database <- get options "database" ;;
  if negb (truthy database)
  then Return (ThrowsError "Invalid database.") else
  user <- get options "user" ;;
  if negb (truthy user) then Return (ThrowsError "Invalid user.") else
  pool <- get options "pool" ;;
  if negb (greater_than_zero pool)
  then Return (ThrowsError "Invalid pool number.") else
  password <- get options "password" ;;
  Return (Created options
            (VObj [("host", host); ("port", port); ("database", database);
                   ("user", user); ("password", password);
                   ("connectionLimit", pool)])).

(* ================================================================== *)
(** * What the specification says, in its own terms *)

(** ** Text literals *)

(** The documented two-character escape of a character, if it has one. *)
Definition documented_escape (c : ascii) : option string :=
  match nat_of_ascii c with
  | 0 => Some "\0"
  | 8 => Some "\b"
  | 9 => Some "\t"
  | 10 => Some "\n"
  | 13 => Some "\r"
  | 26 => Some "\Z"
  | 34 => Some (String "\" (String "034" EmptyString))
  | 39 => Some "\'"
  | 92 => Some "\\"
  | _ => None
  end.

Fixpoint escaped_text (s : string) : string :=
  match s with
  | EmptyString => EmptyString
  | String c r =>
      match documented_escape c with
      | Some e => e
      | None => String c EmptyString
      end ++ escaped_text r
  end.

(** No quote of the body of a literal stands bare: a backslash takes the
    next character with it, and what is left has no quote. *)
Fixpoint quotes_escaped (s : string) : bool :=
  match s with
  | EmptyString => true
  | String c r =>
      if (c =? "\")%char then
        match r with
        | EmptyString => false
        | String _ r' => quotes_escaped r'
        end
      else if (c =? "'")%char then false
      else quotes_escaped r
  end.

(** How a MySQL server reads the character after a backslash. *)
Definition unescape (c : ascii) : ascii :=
  if (c =? "0")%char then "000"%char
  else if (c =? "b")%char then "008"%char
  else if (c =? "n")%char then "010"%char
  else if (c =? "r")%char then "013"%char
  else if (c =? "t")%char then "009"%char
  else if (c =? "Z")%char then "026"%char
  else c.

(** How a MySQL server reads a text literal after its opening quote: a
    backslash takes the next character with it, two quotes in a row are one
    quote, and a quote alone ends the literal.  The result is the text the
    literal denotes and what follows the literal. *)
Fixpoint read_body (s : string) : option (string * string) :=
  match s with
  | EmptyString => None
  | String c r =>
      if (c =? "\")%char then
        match r with
        | EmptyString => None
        | String d r' =>
            match read_body r' with
            | Some (v, rest) => Some (String (unescape d) v, rest)
            | None => None
            end
        end
      else if (c =? "'")%char then
        match r with
        | EmptyString => Some (EmptyString, EmptyString)
        | String d r' =>
            if (d =? "'")%char then
              match read_body r' with
              | Some (v, rest) => Some (String "'" v, rest)
              | None => None
              end
            else Some (EmptyString, r)
        end
      else
        match read_body r with
        | Some (v, rest) => Some (String c v, rest)
        | None => None
        end
  end.

Definition read_literal (s : string) : option (string * string) :=
  match s with
  | String c r => if (c =? "'")%char then read_body r else None
  | EmptyString => None
  end.

(** ** Traces *)

Definition is_release (e : event) : bool :=
  match e with EvRelease => true | _ => false end.

Definition is_callback (e : event) : bool :=
  match e with EvCallback _ => true | _ => false end.

Definition is_statement (e : event) : bool :=
  match e with EvConnQuery _ => true | _ => false end.

Definition releases (t : list event) : nat :=
  List.length (filter is_release t).

Definition callbacks (t : list event) : nat :=
  List.length (filter is_callback t).

Definition statements (t : list event) : nat :=
  List.length (filter is_statement t).

(** The first of a release and a call of the callback is a release. *)
Fixpoint released_first (t : list event) : bool :=
  match t with
  | [] => true
  | EvRelease :: _ => true
  | EvCallback _ :: _ => false
  | _ :: r => released_first r
  end.

(** ** Conditions *)


Definition is_tag (f : string) : bool :=
  (f =? "$and") || (f =? "$or") || (f =? "$not").

(** ** Rows *)

(** The record an object literal evaluates to: its entries are put one
    after the other, in the order written. *)
Definition object_of (entries : list (string * value)) : props :=
  fold_left (fun o kv => put o (fst kv) (snd kv)) entries [].

(** Each key once, where it first occurs. *)
Fixpoint first_seen (keys : list string) : list string :=
  match keys with
  | [] => []
  | k :: r => k :: filter (fun k' => negb (k' =? k)) (first_seen r)
  end.

(** The union of the keys of the rows of a batch, in first-seen order. *)
Definition column_union (rows : list props) : list string :=
  first_seen (concat (map (map fst) rows)).

(** A key seen, as the first loop of [insert] records it. *)
Definition mark (k : string) : string * value := (k, VBool true).

Definition mem (k : string) (ks : list string) : bool :=
  existsb (String.eqb k) ks.

(** What a row supplies for a column: its value, or the empty text when it
    has none or a falsy one. *)
Definition cell (row : props) (column : string) : value :=
  match lookup column row with
  | Some v => if truthy v then v else VStr ""
  | None => VStr ""
  end.

(** A key that a record of keys treats like any other: not an array index,
    not the name of a member of [Object.prototype]. *)
Definition plain_key (k : string) : bool :=
  match array_index k with
  | Some _ => false
  | None => negb (inherited k)
  end.

(** An entry whose key is not an array index. *)
Definition not_index (kv : string * value) : bool :=
  match array_index (fst kv) with
  | Some _ => false
  | None => true
  end.

(** The statement the specification describes for a batch. *)
Definition insert_statement (table : string) (rows : list props)
  : completion string :=
  let columns := column_union rows in
  tuples <- mapM (fun row =>
                    cells <- mapM this_escape (map (cell row) columns) ;;
                    Return ("(" ++ join "," cells ++ ")"))
                 rows ;;
  Return ("INSERT INTO `" ++ table ++ "`("
          ++ join "," (map backquote columns)
          ++ ") VALUES" ++ newline ++ join ("," ++ newline) tuples).

(** ** The trailing clause *)

Definition lower_letter (p : ascii) : bool :=
  let n := nat_of_ascii p in (97 <=? n)%nat && (n <=? 122)%nat.

(** [c] is [p], or [p] is a letter a-z and [c] is its capital. *)
Definition same_letter (c p : ascii) : bool :=
  (c =? p)%char
  || (lower_letter p && (nat_of_ascii c =? nat_of_ascii p - 32)%nat).

Fixpoint same_ignoring_case (s pattern : string) : bool :=
  match s, pattern with
  | EmptyString, EmptyString => true
  | String c s', String p pattern' =>
      same_letter c p && same_ignoring_case s' pattern'
  | _, _ => false
  end.

(** The clause has a [limit ] token, in any mix of cases. *)
Definition contains_limit (tail : string) : Prop :=
  exists before token after,
    tail = before ++ token ++ after
    /\ same_ignoring_case token "limit " = true.

(** How deep the sequences of a value nest. *)
Fixpoint nesting (v : value) : nat :=
  match v with
  | VArr elems => S (fold_right (fun x n => Nat.max (nesting x) n) 0 elems)
  | _ => 0
  end.

(** ** Literals, again *)

(** The values the escaper has a literal for. *)
Definition scalar (v : value) : bool :=
  match v with
  | VUndefined | VNull | VBool _ | VNum _ | VStr _ => true
  | _ => false
  end.

(** How many characters of a text the escaper escapes. *)
Fixpoint escaped_count (s : string) : nat :=
  match s with
  | EmptyString => 0
  | String c r => (if in_class c then 1 else 0) + escaped_count r
  end.

Definition starts_with_quote (s : string) : bool :=
  match s with
  | String c _ => (c =? "'")%char
  | EmptyString => false
  end.

(** Reading a decimal numeral. *)
Definition read_integer (s : string) : option Z :=
  option_map Z.of_int (NilZero.int_of_string s).

(** ** Conditions, again *)

(** A condition the compiler has a rule for: a text, a sequence, or an
    object. *)
Definition condition_shape (w : value) : bool :=
  match w with
  | VStr _ | VArr _ => true
  | _ => object_like w
  end.

(** ** Conversations *)




(** ** Columns *)

(** A record of keys as [insert] builds it: no key twice, every value
    [true]. *)
Definition key_record (fileds : props) : Prop :=
  NoDup (map fst fileds) /\ Forall (fun kv => snd kv = VBool true) fileds.

(* ================================================================== *)
(** * The escaper *)

Lemma replace_one (c : ascii) :
  (if in_class c then replacement c else String c EmptyString)
  = match documented_escape c with
    | Some e => e
    | None => String c EmptyString
    end.
Proof.
  destruct c as [[] [] [] [] [] [] [] []]; reflexivity.
Qed.

Lemma replace_escaped_text (s : string) :
  replace replacement s = escaped_text s.
Proof.
  induction s as [|c r IH]; simpl.
  - reflexivity.
  - rewrite replace_one, IH. reflexivity.
Qed.

Lemma read_body_one (c : ascii) (rest : string) :
  read_body (match documented_escape c with
             | Some e => e
             | None => String c EmptyString
             end ++ rest)
  = match read_body rest with
    | Some (v, rest') => Some (String c v, rest')
    | None => None
    end.
Proof.
  destruct c as [[] [] [] [] [] [] [] []]; reflexivity.
Qed.

Lemma append_assoc (a b c : string) : (a ++ b) ++ c = a ++ (b ++ c).
Proof.
  induction a as [|x a IH]; simpl; [reflexivity | now rewrite IH].
Qed.

Lemma read_body_escaped (s rest : string) :
  read_body (escaped_text s ++ rest)
  = match read_body rest with
    | Some (v, rest') => Some (s ++ v, rest')
    | None => None
    end.
Proof.
  induction s as [|c r IH]; simpl.
  - destruct (read_body rest) as [[v rest']|]; reflexivity.
  - rewrite append_assoc, read_body_one, IH.
    destruct (read_body rest) as [[v rest']|]; reflexivity.
Qed.

(** Appends to the right, literal prefixes unfolded. *)
Ltac normalize_append :=
  repeat first [rewrite append_assoc | progress cbn [append]].

Lemma quotes_escaped_one (c : ascii) (rest : string) :
  quotes_escaped (match documented_escape c with
                  | Some e => e
                  | None => String c EmptyString
                  end ++ rest)
  = quotes_escaped rest.
Proof.
  destruct c as [[] [] [] [] [] [] [] []]; reflexivity.
Qed.

Lemma quotes_escaped_text (s : string) :
  quotes_escaped (escaped_text s) = true.
Proof.
  induction s as [|c r IH]; simpl; [reflexivity|].
  now rewrite quotes_escaped_one.
Qed.

Lemma append_empty (s : string) : s ++ "" = s.
Proof.
  induction s as [|x a IH]; simpl; [reflexivity | now rewrite IH].
Qed.

(** C3.  For every text [s], whatever the other two arguments, the escaper
    returns [s] with each of NUL, LF, CR, BS, TAB, SUB, backslash, quote and
    double quote replaced by its documented two-character escape, between
    two quotes; no quote between the two stands bare; and a server reading
    that literal reads all of it and reads [s]: no quote inside ends it
    early. *)
Theorem escape_text (s : string) (stringifyObjects timeZone : value) :
  SqlStringEscape (VStr s) stringifyObjects timeZone
  = Return ("'" ++ escaped_text s ++ "'")
  /\ escape timeZone (VStr s) = Return ("'" ++ escaped_text s ++ "'")
  /\ quotes_escaped (escaped_text s) = true
  /\ read_literal ("'" ++ escaped_text s ++ "'") = Some (s, "").
Proof.
  assert (E : forall so, SqlStringEscape (VStr s) so timeZone
                         = Return ("'" ++ escaped_text s ++ "'")).
  { intros so. unfold SqlStringEscape, quote. simpl.
    rewrite replace_escaped_text. reflexivity. }
  split; [apply E | split; [apply E | split; [apply quotes_escaped_text|]]].
  cbn [read_literal append]. simpl Ascii.eqb.
  rewrite read_body_escaped. simpl. rewrite append_empty. reflexivity.
Qed.

(** C4.  On a date, a byte sequence, an ordered sequence or a mapping the
    escaper does not return: it reaches for [SqlString], which the file
    never binds, and raises. *)
Theorem escape_structured_raises (timeZone : value) :
  (forall t, escape timeZone (VExotic (Date t))
             = Throw (ReferenceError "SqlString is not defined"))
  /\ (forall b, escape timeZone (VExotic (Buffer b))
                = Throw (ReferenceError "SqlString is not defined"))
  /\ (forall l, escape timeZone (VArr l)
                = Throw (ReferenceError "SqlString is not defined"))
  /\ (forall o, escape timeZone (VObj o)
                = Throw (ReferenceError "SqlString is not defined")).
Proof.
  repeat split; reflexivity.
Qed.


(* ================================================================== *)
(** * The pooled executor: release and callback *)

Lemma io_bind_lift_return {A B : Type} (a : A) (k : A -> io B) :
  io_bind (lift (Return a)) k = k a.
Proof.
  unfold io_bind, lift. destruct (k a) as [t r]. reflexivity.
Qed.

Lemma io_bind_lift_throw {A B : Type} (e : exn) (k : A -> io B) :
  io_bind (lift (Throw e)) k = ([], Throw e).
Proof.
  reflexivity.
Qed.

(** C1, as the code has it.  When the pool gives an error, the caller's
    callback is called once, with that error, and nothing is released.
    When it gives a connection and the driver answers through its callback,
    with rows or with an error, the connection is released once and then
    the caller's callback is called once, with the driver's arguments.  When
    the driver raises instead of answering, the exception leaves [query]:
    nothing is released and the callback is not called. *)
Theorem query_discipline (args : list value) :
  let err := getConnection_err (_pool this) in
  let r := query args caller in
  if truthy err then
    r = ([EvGetConnection; EvCallback [err]], Return tt)
    /\ callbacks (fst r) = 1 /\ releases (fst r) = 0
  else
    match conn_query (_pool this) args with
    | Replies arguments =>
        r = ([EvGetConnection; EvConnQuery args; EvRelease;
              EvCallback arguments], Return tt)
        /\ releases (fst r) = 1 /\ callbacks (fst r) = 1
        /\ released_first (fst r) = true
    | Raises e =>
        r = ([EvGetConnection; EvConnQuery args], Throw e)
        /\ releases (fst r) = 0 /\ callbacks (fst r) = 0
    end.
Proof.
  unfold query. cbv zeta.
  destruct (truthy (getConnection_err (_pool this))).
  - repeat split.
  - destruct (conn_query (_pool this) args) as [arguments|e]; repeat split.
Qed.

(* ================================================================== *)
(** * The condition compiler *)

Lemma bind_assoc {A B C : Type} (c : completion A)
  (f : A -> completion B) (g : B -> completion C) :
  bind (bind c f) g = bind c (fun a => bind (f a) g).
Proof.
  destruct c; reflexivity.
Qed.

(** On anything but a sequence the compiler of prefix expressions is the
    escaper. *)
Lemma parseArrayCondition_escape (timeZone v : value) :
  Array_isArray v = false ->
  parseArrayCondition v = escape timeZone v.
Proof.
  destruct v as [| | b | n | s | e | l | o]; intros E;
    (discriminate E || reflexivity).
Qed.


(** C5, as the code has it.  A prefix expression of a field and a value
    compiles to [`field`=value] in parentheses, and one of a field, an
    operator and a value to [`field` operator value] in parentheses, where
    the value is escaped unless it is an ordered sequence: a sequence is
    compiled as a prefix expression of its own. *)
Theorem leaf_condition (field : string) (v timeZone : value) :
  is_tag field = false ->
  let compiled :=
    if Array_isArray v then parseArrayCondition v else escape timeZone v in
  parseArrayCondition (VArr [VStr field; v])
  = (r <- compiled ;; Return (" (`" ++ field ++ "`=" ++ r ++ ") "))
  /\ forall (operator : string) (more : list value),
       parseArrayCondition (VArr (VStr field :: VStr operator :: v :: more))
       = (r <- compiled ;;
          Return (" (`" ++ field ++ "` " ++ operator ++ " " ++ r ++ ") ")).
Proof.
  intros T compiled.
  assert (C : compiled = parseArrayCondition v).
  { subst compiled. destruct (Array_isArray v) eqn:A; [reflexivity|].
    symmetry. now apply parseArrayCondition_escape. }
  unfold is_tag in T.
  apply orb_false_elim in T as [T Tnot].
  apply orb_false_elim in T as [Tand Tor].
  rewrite C. split; [|intros operator more].
  - cbn [parseArrayCondition nth is_string ToString].
    rewrite Tand, Tor, Tnot. cbn [orb].
    destruct (parseArrayCondition v) as [r|e]; cbn [bind]; [|reflexivity].
    now normalize_append.
  - cbn [parseArrayCondition nth is_string ToString].
    rewrite Tand, Tor, Tnot. cbn [orb].
    destruct (parseArrayCondition v) as [r|e]; cbn [bind]; [|reflexivity].
    now normalize_append.
Qed.

(** C6, as the code has it.  A prefix expression that starts with [$and]
    or [$or] takes every other element, compiles it as a prefix expression
    when it is a sequence and escapes it as a value when it is not (a text
    becomes a text literal), and joins the results with AND or OR inside one
    pair of parentheses; one that starts with [$not] does the same with its
    second element and puts NOT before it inside one pair of parentheses. *)
Theorem logical_condition (rest : list value) (x : value)
  (more : list value) (timeZone : value) :
  let operand := fun v =>
    if Array_isArray v then parseArrayCondition v else escape timeZone v in
  parseArrayCondition (VArr (VStr "$and" :: rest))
  = (parts <- mapM operand rest ;;
     Return (" (" ++ join " AND " parts ++ ") "))
  /\ parseArrayCondition (VArr (VStr "$or" :: rest))
     = (parts <- mapM operand rest ;;
        Return (" (" ++ join " OR " parts ++ ") "))
  /\ parseArrayCondition (VArr (VStr "$not" :: x :: more))
     = (r <- operand x ;; Return (" (NOT " ++ r ++ ") "))
  /\ parseArrayCondition
       (VArr [VStr "$and"; VArr [VStr "a"; int 1];
              VArr [VStr "b"; VStr ">"; int 2]])
     = Return " ( (`a`=1)  AND  (`b` > 2) ) "
  /\ parseArrayCondition (VArr [VStr "$or"; VStr "a>1"; VStr "b<2"])
     = Return " ('a>1' OR 'b<2') ".
Proof.
  intros operand.
  assert (O : forall v, parseArrayCondition v = operand v).
  { intros v. subst operand. cbv beta.
    destruct (Array_isArray v) eqn:A; [reflexivity|].
    now apply parseArrayCondition_escape. }
  assert (M : forall l, mapM parseArrayCondition l = mapM operand l).
  { induction l as [|v l IH]; simpl; [reflexivity|]. now rewrite O, IH. }
  rewrite <- M, <- O. repeat split.
  - cbn [parseArrayCondition nth is_string ToString].
    cbn. rewrite bind_assoc. reflexivity.
  - cbn [parseArrayCondition nth is_string ToString].
    cbn. rewrite bind_assoc. reflexivity.
  - cbn [parseArrayCondition nth is_string ToString].
    cbn. rewrite bind_assoc. reflexivity.
Qed.


(* ================================================================== *)
(** * The insert builder *)

Lemma lookup_marked (k : string) (ks : list string) :
  lookup k (map mark ks) = if mem k ks then Some (VBool true) else None.
Proof.
  induction ks as [|k' ks IH]; simpl; [reflexivity|].
  destruct (k =? k'); [reflexivity | exact IH].
Qed.

(** One step of the loop on a plain key: the key is added at the end unless
    it is there. *)
Lemma collect_step (k : string) (ks : list string) :
  plain_key k = true ->
  (if negb (truthy (get_record (map mark ks) k))
   then put (map mark ks) k (VBool true) else map mark ks)
  = map mark (if mem k ks then ks else (ks ++ [k])%list).
Proof.
  unfold plain_key, get_record, put. intros P.
  rewrite lookup_marked.
  destruct (mem k ks); [reflexivity|].
  destruct (array_index k); [discriminate P|].
  apply negb_true_iff in P. rewrite P. simpl.
  now rewrite map_app.
Qed.

Lemma filter_filter {A : Type} (f g : A -> bool) (l : list A) :
  filter f (filter g l) = filter (fun x => f x && g x) l.
Proof.
  induction l as [|x l IH]; simpl; [reflexivity|].
  destruct (g x); simpl; rewrite ?andb_true_r, ?andb_false_r;
    [destruct (f x); simpl; now rewrite IH | exact IH].
Qed.

Lemma mem_app (k : string) (a b : list string) :
  mem k (a ++ b)%list = mem k a || mem k b.
Proof.
  unfold mem. apply existsb_app.
Qed.

(** Adding keys one by one at the end, unless there, is keeping them where
    first seen. *)
Lemma add_first_seen (keys acc : list string) :
  fold_left (fun ks k => if mem k ks then ks else (ks ++ [k])%list) keys acc
  = (acc ++ filter (fun k => negb (mem k acc)) (first_seen keys))%list.
Proof.
  revert acc. induction keys as [|k r IH]; intros acc; simpl.
  - now rewrite app_nil_r.
  - rewrite IH, filter_filter. destruct (mem k acc) eqn:M; simpl.
    + f_equal. apply filter_ext. intros x.
      destruct (x =? k) eqn:E; simpl; [|now rewrite andb_true_r].
      apply String.eqb_eq in E. subst x. now rewrite M.
    + rewrite <- app_assoc. simpl. do 2 f_equal.
      apply filter_ext. intros x. rewrite mem_app. simpl.
      rewrite orb_false_r, negb_orb. reflexivity.
Qed.

Lemma collect_plain (keys acc : list string) :
  forallb plain_key keys = true ->
  fold_left
    (fun fileds i =>
       if negb (truthy (get_record fileds i))
       then put fileds i (VBool true) else fileds)
    keys (map mark acc)
  = map mark
      (fold_left (fun ks k => if mem k ks then ks else (ks ++ [k])%list)
                 keys acc).
Proof.
  revert acc. induction keys as [|k r IH]; intros acc P; simpl;
    [reflexivity|].
  simpl in P. apply andb_true_iff in P as [Pk Pr].
  rewrite (collect_step k acc Pk). now apply IH.
Qed.

Lemma collect_rows (rows : list props) (acc : list string) :
  forallb plain_key (concat (map (map fst) rows)) = true ->
  fold_left collect (map VObj rows) (map mark acc)
  = map mark
      (fold_left (fun ks k => if mem k ks then ks else (ks ++ [k])%list)
                 (concat (map (map fst) rows)) acc).
Proof.
  revert acc. induction rows as [|row rows IH]; intros acc P; simpl;
    [reflexivity|].
  simpl in P. rewrite forallb_app in P. apply andb_true_iff in P as [P1 P2].
  unfold collect at 2. cbn [for_in].
  rewrite (collect_plain _ acc P1), fold_left_app. now apply IH.
Qed.

(** On plain keys [insert] finds the union of the keys, in first-seen
    order. *)
Lemma fileds_column_union (rows : list props) :
  forallb plain_key (concat (map (map fst) rows)) = true ->
  Object_keys (fold_left collect (map VObj rows) []) = column_union rows.
Proof.
  intros P. change (@nil (string * value)) with (map mark []).
  rewrite (collect_rows rows [] P), add_first_seen. simpl.
  unfold Object_keys, column_union. rewrite map_map. simpl.
  rewrite map_id. clear P.
  induction (first_seen (concat (map (map fst) rows))) as [|x l IH];
    simpl; [reflexivity | now rewrite IH].
Qed.


Lemma mapM_return {A B : Type} (g : A -> B) (xs : list A) :
  mapM (fun x => Return (g x)) xs = Return (map g xs).
Proof.
  induction xs as [|x xs IH]; simpl; [reflexivity | now rewrite IH].
Qed.

Lemma mapM_ext {A B : Type} (f g : A -> completion B) (xs : list A) :
  (forall x, In x xs -> f x = g x) -> mapM f xs = mapM g xs.
Proof.
  induction xs as [|x xs IH]; intros E; simpl; [reflexivity|].
  rewrite (E x (or_introl eq_refl)), IH; [reflexivity|].
  intros y Y. apply E. now right.
Qed.

Lemma mapM_map {A B C : Type} (f : B -> completion C) (g : A -> B)
  (xs : list A) :
  mapM f (map g xs) = mapM (fun x => f (g x)) xs.
Proof.
  induction xs as [|x xs IH]; simpl; [reflexivity | now rewrite IH].
Qed.

Lemma first_seen_In (k : string) (keys : list string) :
  In k (first_seen keys) -> In k keys.
Proof.
  induction keys as [|k' r IH]; simpl; [tauto|].
  intros [E|I]; [now left|]. right. apply IH.
  now apply filter_In in I.
Qed.

Lemma plain_key_not_inherited (k : string) :
  plain_key k = true -> inherited k = false.
Proof.
  unfold plain_key. destruct (array_index k); [discriminate|].
  apply negb_true_iff.
Qed.

(** What the second loop of [insert] reads from a row. *)
Lemma line_cells (row : props) (columns : list string) :
  (forall f, In f columns -> inherited f = false) ->
  mapM (fun f => v <- get (VObj row) f ;; Return (or_empty v)) columns
  = Return (map (cell row) columns).
Proof.
  intros N. rewrite <- mapM_return. apply mapM_ext. intros f F.
  cbn [get bind]. unfold get_record, cell, or_empty.
  destruct (lookup f row) as [v|]; [reflexivity|].
  now rewrite (N f F).
Qed.

(** C7, as the code has it.  For a batch of mappings whose keys are plain
    (none an array index, none the name of a member of [Object.prototype]),
    the columns are the union of the keys in first-seen order, and each row
    supplies for each column its escaped value, the empty text standing in
    for a value that is absent or falsy. *)
Theorem insert_columns_and_cells (table : string) (rows : list props)
  (callback : callback_t) :
  forallb plain_key (concat (map (map fst) rows)) = true ->
  insert_sql table (map VObj rows) = insert_statement table rows
  /\ (rows <> [] ->
      insert table (VArr (map VObj rows)) callback
      = (sql <~ lift (insert_statement table rows) ;;
         query [VStr sql] callback))
  /\ (forall row column,
        match lookup column row with
        | Some v => truthy v = false
        | None => True
        end ->
        cell row column = VStr ""
        /\ this_escape (cell row column) = Return "''").
Proof.
  intros P.
  assert (S : insert_sql table (map VObj rows) = insert_statement table rows).
  { unfold insert_sql, insert_statement.
    rewrite (fileds_column_union rows P).
    assert (L : mapM (fun item =>
                        mapM (fun f => v <- get item f ;; Return (or_empty v))
                             (column_union rows))
                     (map VObj rows)
                = Return (map (fun row => map (cell row) (column_union rows))
                              rows)).
    { rewrite mapM_map, <- mapM_return. apply mapM_ext. intros row _.
      apply line_cells. intros f F. apply plain_key_not_inherited.
      apply first_seen_In in F.
      rewrite forallb_forall in P. now apply P. }
    rewrite L. cbn [bind]. rewrite mapM_map. reflexivity. }
  split; [exact S | split].
  - intros N. unfold insert. rewrite S.
    destruct rows as [|row rows]; [contradiction|]. reflexivity.
  - intros row column A. unfold cell.
    destruct (lookup column row) as [v|]; [rewrite A|]; split; reflexivity.
Qed.

(* ================================================================== *)
(** * Data-format errors *)

(** C8, as the code has it.  What is rejected is a value that is falsy or
    whose type is not [object]: [insert] given an empty batch, such a value,
    or a batch that starts with one, and [update] given such a value as its
    data (once the condition has compiled), call the callback once with the
    data-format error and touch neither the pool nor a connection. *)
Theorem data_format_errors (table : string) (v : value) :
  object_like v = false ->
  let bad_data := ([EvCallback [VExotic (Error "Bad data format.")]],
                   Return tt) in
  let not_object := ([EvCallback [VExotic (Error "Data must be an object.")]],
                     Return tt) in
  insert table (VArr []) caller = bad_data
  /\ insert table v caller = bad_data
  /\ (forall more, insert table (VArr (v :: more)) caller = bad_data)
  /\ (forall where_ c tail,
        parseCondition where_ = Return c ->
        update table where_ v tail caller = not_object).
Proof.
  intros O bad_data not_object. repeat split.
  - unfold insert.
    destruct v as [| | b | n | s | e | l | o]; cbn [nth]; rewrite ?O;
      try reflexivity; discriminate O.
  - intros more. unfold insert. cbn [nth]. now rewrite O.
  - intros where_ c tail P. unfold update.
    rewrite P, io_bind_lift_return, O. reflexivity.
Qed.


(* ================================================================== *)
(** * Equality mappings *)

Lemma SqlStringEscape1_escape (timeZone v : value) :
  SqlStringEscape1 v = escape timeZone v.
Proof.
  destruct v; reflexivity.
Qed.

Lemma lookup_NoDup (o : props) (k : string) (v : value) :
  NoDup (map fst o) -> In (k, v) o -> lookup k o = Some v.
Proof.
  induction o as [|[k' v'] o IH]; simpl; [tauto|].
  intros N I. inversion N as [|? ? Nk No]; subst.
  destruct I as [[= -> ->]|I].
  - now rewrite String.eqb_refl.
  - destruct (k =? k') eqn:E; [|now apply IH].
    apply String.eqb_eq in E. subst k'. exfalso. apply Nk.
    change k with (fst (k, v)). now apply in_map.
Qed.

Lemma lookup_absent (o : props) (k : string) :
  ~ In k (map fst o) -> lookup k o = None.
Proof.
  induction o as [|[k' v'] o IH]; simpl; [reflexivity|].
  intros N. destruct (k =? k') eqn:E.
  - apply String.eqb_eq in E. subst k'. exfalso. apply N. now left.
  - apply IH. intros I. apply N. now right.
Qed.

(** Entries whose keys are distinct and none an array index are kept in the
    order written. *)
Lemma put_entries (entries acc : props) :
  NoDup (map fst (acc ++ entries)%list) ->
  forallb not_index entries = true ->
  fold_left (fun o kv => put o (fst kv) (snd kv)) entries acc
  = (acc ++ entries)%list.
Proof.
  revert acc. induction entries as [|[k v] r IH]; intros acc N X; simpl.
  - now rewrite app_nil_r.
  - simpl in X. apply andb_true_iff in X as [Xk Xr].
    unfold not_index in Xk. simpl in Xk.
    assert (A : put acc k v = (acc ++ [(k, v)])%list).
    { unfold put. rewrite lookup_absent.
      - destruct (array_index k); [discriminate Xk | reflexivity].
      - rewrite map_app in N. simpl in N.
        apply NoDup_remove_2 in N. intros I. apply N.
        apply in_or_app. now left. }
    rewrite A, IH, <- app_assoc; [reflexivity | | exact Xr].
    now rewrite <- app_assoc.
Qed.

(** C9, as the code has it.  A mapping compiles to [`key`=value] for each
    of its keys, the value escaped, joined by AND and with no parentheses
    around, in the order in which the mapping enumerates its keys; that is
    the order of insertion when no key is an array index. *)
Theorem equality_mapping (o : props) (timeZone : value) :
  NoDup (map fst o) ->
  parseCondition (VObj o)
  = (parts <- mapM (fun kv =>
                      e <- escape timeZone (snd kv) ;;
                      Return ("`" ++ fst kv ++ "`=" ++ e))
                   o ;;
     Return (VStr (join " AND " parts)))
  /\ (forallb not_index o = true -> object_of o = o).
Proof.
  intros N. split.
  - change (parseCondition (VObj o))
      with (s <- parseObjectCondition (VObj o) ;; Return (VStr s)).
    unfold parseObjectCondition. cbn [for_in].
    rewrite mapM_map, bind_assoc. f_equal.
    apply mapM_ext. intros [k v] I.
    cbn [get bind fst snd]. unfold get_record.
    rewrite (lookup_NoDup o k v N I).
    now rewrite (SqlStringEscape1_escape timeZone).
  - intros X. unfold object_of. now rewrite put_entries.
Qed.


(* ================================================================== *)
(** * selectOne *)

Lemma prefix_split (p s : string) :
  prefix p s = true <-> exists after, s = p ++ after.
Proof.
  revert s. induction p as [|a p IH]; intros s; simpl.
  - split; [intros _; now exists s | intros _; now destruct s].
  - destruct s as [|b s]; simpl; [split; [discriminate | intros [x [=]]]|].
    destruct (ascii_dec a b) as [->|N].
    + rewrite IH. split; intros [x E]; exists x; [now rewrite E|].
      now injection E.
    + split; [discriminate | intros [x [= E _]]; congruence].
Qed.

(** [index 0 p s] finds [p] exactly when [p] occurs in [s]. *)
Lemma index_occurs (p s : string) :
  p <> "" ->
  (index 0 p s <> None) <-> exists before after, s = before ++ p ++ after.
Proof.
  intros P. induction s as [|a s IH].
  - destruct p as [|b p]; [contradiction|]. simpl. split.
    + intros N. now contradiction N.
    + intros [[|x before] [after [=]]].
  - cbn [index]. destruct (prefix p (String a s)) eqn:E.
    + split; [intros _ | congruence].
      apply prefix_split in E as [after E]. now exists "", after.
    + split.
      * destruct (index 0 p s) as [n|]; [intros _ | congruence].
        destruct IH as [IH _]. destruct IH as [before [after ->]];
          [congruence|].
        now exists (String a before), after.
      * intros [[|x before] [after B]]; simpl in B.
        -- assert (T : prefix p (String a s) = true)
             by (apply prefix_split; now exists after).
           congruence.
        -- injection B as _ B.
           destruct IH as [_ IH].
           destruct (index 0 p s); [congruence|].
           exfalso. apply IH; [|reflexivity]. now exists before, after.
Qed.

Lemma map_string_app (f : ascii -> ascii) (a b : string) :
  map_string f (a ++ b) = map_string f a ++ map_string f b.
Proof.
  induction a as [|x a IH]; simpl; [reflexivity | now rewrite IH].
Qed.

Lemma map_string_split (f : ascii -> ascii) (s x y : string) :
  map_string f s = x ++ y ->
  exists a b, s = a ++ b /\ map_string f a = x /\ map_string f b = y.
Proof.
  revert s. induction x as [|c x IH]; intros s E; simpl in E.
  - now exists "", s.
  - destruct s as [|d s]; [discriminate|]. simpl in E.
    injection E as Ec E. destruct (IH s E) as [a [b [-> [Ea Eb]]]].
    exists (String d a), b. simpl. now rewrite Ec, Ea, Eb.
Qed.

(** On the characters of the token, being the same letter is lowering to
    it. *)
Lemma same_letter_lower (c p : ascii) :
  In p (list_ascii_of_string "limit ") ->
  same_letter c p = (lower c =? p)%char.
Proof.
  simpl. intros [<-|[<-|[<-|[<-|[<-|[<-|[]]]]]]];
    destruct c as [[] [] [] [] [] [] [] []]; reflexivity.
Qed.

Lemma same_ignoring_case_lower (pattern s : string) :
  (forall p, In p (list_ascii_of_string pattern) ->
             In p (list_ascii_of_string "limit ")) ->
  same_ignoring_case s pattern = true <-> toLowerCase s = pattern.
Proof.
  unfold toLowerCase.
  revert s. induction pattern as [|p pattern IH]; intros s I.
  - destruct s; simpl; split; congruence.
  - destruct s as [|c s]; simpl; [split; congruence|].
    rewrite same_letter_lower by (apply I; now left).
    rewrite andb_true_iff, Ascii.eqb_eq, IH
      by (intros q Q; apply I; now right).
    split; [intros [-> ->]; reflexivity|].
    intros [= -> ->]. now split.
Qed.

(** The test of [selectOne] finds the token exactly when it is there. *)
Lemma limit_test (tail : string) :
  (indexOf (toLowerCase tail) "limit " =? -1)%Z = false
  <-> contains_limit tail.
Proof.
  unfold indexOf, contains_limit.
  assert (P : "limit " <> "") by discriminate.
  pose proof (index_occurs "limit " (toLowerCase tail) P) as [F B].
  split.
  - intros T. destruct F as [before [after E]].
    { destruct (index 0 "limit " (toLowerCase tail)); [congruence|].
      discriminate T. }
    unfold toLowerCase in E.
    apply map_string_split in E as [a [r [-> [_ E]]]].
    apply map_string_split in E as [token [b [-> [E _]]]].
    exists a, token, b. split; [reflexivity|].
    now apply same_ignoring_case_lower.
  - intros [before [token [after [-> S]]]].
    apply same_ignoring_case_lower in S; [|now intros p].
    assert (N : index 0 "limit " (toLowerCase (before ++ token ++ after))
                <> None).
    { apply B. unfold toLowerCase in *.
      rewrite !map_string_app, S. now eexists _, _. }
    destruct (index 0 "limit " (toLowerCase (before ++ token ++ after)));
      [|congruence].
    apply Z.eqb_neq. lia.
Qed.


Lemma nesting_elem (x : value) (elems : list value) :
  In x elems -> nesting x < nesting (VArr elems).
Proof.
  intros I.
  change (nesting (VArr elems))
    with (S (fold_right (fun x n => Nat.max (nesting x) n) 0 elems)).
  apply Nat.lt_succ_r.
  induction elems as [|y l IH]; [contradiction|].
  cbn [fold_right]. destruct I as [->|I].
  - apply Nat.le_max_l.
  - etransitivity; [exact (IH I) | apply Nat.le_max_r].
Qed.

(** A row of a result set is not the result set. *)
Lemma first_row_not_rows (rows : list value) :
  nth 0 rows VUndefined <> VArr rows.
Proof.
  intros E. destruct rows as [|row rows]; [discriminate E|].
  pose proof (nesting_elem row (row :: rows) (or_introl eq_refl)) as L.
  cbn [nth] in E. apply (f_equal nesting) in E. lia.
Qed.

(** C10.  [selectOne] leaves alone a trailing clause that has a [limit ]
    token in any mix of cases, and puts [ LIMIT 1] after one that has none;
    and when the pool gives a connection and the driver answers with no
    error and a row sequence, the caller's callback is called once, with no
    error and the first row, or [undefined] when there is no row: not with
    the row sequence. *)
Theorem selectOne_limit_and_first_row (table : string)
  (fields where_ c e : value) (tail : option string)
  (rows more : list value) :
  let given := tail_or_empty tail in
  let sql := select_sql table (select_fields fields) c (selectOne_tail tail) in
  parseCondition where_ = Return c ->
  truthy (getConnection_err (_pool this)) = false ->
  conn_query (_pool this) [VStr sql] = Replies (e :: VArr rows :: more) ->
  truthy e = false ->
  (contains_limit given -> selectOne_tail tail = given)
  /\ (~ contains_limit given -> selectOne_tail tail = given ++ " LIMIT 1")
  /\ selectOne table fields where_ tail caller
     = ([EvGetConnection; EvConnQuery [VStr sql]; EvRelease;
         EvCallback [VNull; nth 0 rows VUndefined]], Return tt)
  /\ nth 0 [] VUndefined = VUndefined
  /\ nth 0 rows VUndefined <> VArr rows.
Proof.
  intros given sql P A R E.
  pose proof (limit_test given) as [T1 T2].
  split; [|split; [|split; [|split]]].
  - intros L. unfold selectOne_tail. fold given. now rewrite (T2 L).
  - intros L. unfold selectOne_tail. fold given.
    destruct (indexOf (toLowerCase given) "limit " =? -1)%Z;
      [reflexivity|]. exfalso. now apply L, T1.
  - unfold selectOne, select. cbv zeta.
    rewrite P, io_bind_lift_return. cbn [tail_or_empty]. fold sql.
    unfold query. rewrite A, R. cbn. now rewrite E.
  - reflexivity.
  - apply first_row_not_rows.
Qed.

(* ================================================================== *)
(** * More on the escaper *)

(** X1.  The escaper returns exactly on [undefined], [null], a boolean, a
    number and a text; on a function it raises a TypeError and on any other
    object a ReferenceError; and the time zone never matters. *)
Theorem escape_outcome (v timeZone timeZone' : value) :
  ((exists s, escape timeZone v = Return s) <-> scalar v = true)
  /\ (scalar v = false ->
      escape timeZone v
      = Throw (if typeof v =? "function"
               then TypeError "val.replace is not a function"
               else ReferenceError "SqlString is not defined"))
  /\ escape timeZone v = escape timeZone' v.
Proof.
  destruct v as [| | b | n | s | [t|b|f|m] | l | o]; cbn;
    repeat split; try reflexivity; try discriminate;
    try (intros [s' [=]]); try (intros _; eexists; reflexivity).
Qed.

Lemma length_append (a b : string) :
  String.length (a ++ b) = String.length a + String.length b.
Proof.
  induction a as [|x a IH]; simpl; [reflexivity | now rewrite IH].
Qed.

Lemma replace_length (s : string) :
  String.length (replace replacement s) = String.length s + escaped_count s.
Proof.
  induction s as [|c r IH]; simpl; [reflexivity|].
  rewrite length_append, IH.
  destruct c as [[] [] [] [] [] [] [] []]; simpl; lia.
Qed.

Lemma escaped_count_le (s : string) : escaped_count s <= String.length s.
Proof.
  induction s as [|c r IH]; simpl; [lia|].
  destruct (in_class c); lia.
Qed.

(** X2.  The literal of a text is the text, two quotes, and one backslash
    for each character escaped: never more than twice the text and two. *)
Theorem escape_text_length (s : string) (timeZone : value) :
  exists literal,
    escape timeZone (VStr s) = Return literal
    /\ String.length literal = String.length s + escaped_count s + 2
    /\ String.length s + 2 <= String.length literal
       <= 2 * String.length s + 2.
Proof.
  exists (quote s). split; [reflexivity|].
  assert (L : String.length (quote s)
              = String.length s + escaped_count s + 2).
  { unfold quote. cbn [append String.length].
    rewrite length_append, replace_length. simpl. lia. }
  pose proof (escaped_count_le s). lia.
Qed.

Lemma replace_clean (s : string) :
  escaped_count s = 0 -> replace replacement s = s.
Proof.
  induction s as [|c r IH]; simpl; [reflexivity|].
  destruct (in_class c); [discriminate|]. simpl. intros E. now rewrite IH.
Qed.

Lemma append_cancel_l (a b c : string) : a ++ b = a ++ c -> b = c.
Proof.
  induction a as [|x a IH]; simpl; [auto|]. intros [= E]. auto.
Qed.

(** X3.  The literal of a text is the text between two quotes exactly when
    the text has none of the nine characters. *)
Theorem escape_text_unchanged (s : string) (timeZone : value) :
  escape timeZone (VStr s) = Return ("'" ++ s ++ "'")
  <-> escaped_count s = 0.
Proof.
  change (escape timeZone (VStr s)) with (Return (A:=string) (quote s)).
  unfold quote. split.
  - intros [= E]. apply (f_equal String.length) in E.
    rewrite !length_append, replace_length in E. lia.
  - intros E. now rewrite replace_clean.
Qed.

(** X4.  After the literal of a text, a server goes on reading right where
    the literal ends, whatever follows that does not start with a quote. *)
Theorem escape_text_in_context (s rest : string) (timeZone : value) :
  starts_with_quote rest = false ->
  exists literal,
    escape timeZone (VStr s) = Return literal
    /\ read_literal (literal ++ rest) = Some (s, rest).
Proof.
  intros R. exists (quote s). split; [reflexivity|].
  unfold quote. rewrite replace_escaped_text.
  cbn [append read_literal]. simpl Ascii.eqb. cbv iota.
  rewrite append_assoc, read_body_escaped. cbn [append read_body].
  simpl Ascii.eqb. cbv iota.
  destruct rest as [|c rest]; [now rewrite append_empty|].
  simpl in R. rewrite R. now rewrite append_empty.
Qed.

(** X5.  Two texts with the same literal are the same text. *)
Theorem escape_text_injective (s s' : string) (timeZone : value) :
  escape timeZone (VStr s) = escape timeZone (VStr s') -> s = s'.
Proof.
  intros E.
  destruct (escape_text s VUndefined timeZone) as [_ [E1 [_ R1]]].
  destruct (escape_text s' VUndefined timeZone) as [_ [E2 [_ R2]]].
  rewrite E1, E2 in E. injection E as E. rewrite E in R1.
  rewrite R1 in R2. now injection R2.
Qed.

Lemma read_integer_numeral (z : Z) (safe : safe_integer z = true) :
  read_integer (number_to_string (NInt z safe)) = Some z.
Proof.
  unfold read_integer, number_to_string. rewrite NilZero.isi.
  - simpl. now rewrite DecimalZ.of_to.
  - destruct z as [|p|p]; simpl; try discriminate.
    intros [= E]. now apply (DecimalPos.Unsigned.to_uint_nonnil p).
  - destruct z as [|p|p]; simpl; try discriminate.
    intros [= E]. now apply (DecimalPos.Unsigned.to_uint_nonnil p).
Qed.

(** X6.  The literal of an integer between -2^53 and 2^53 is its decimal
    numeral: reading it gives the integer back, so two such integers with
    the same literal are equal. *)
Theorem escape_integer (z z' : Z) (safe : safe_integer z = true)
  (safe' : safe_integer z' = true) (timeZone : value) :
  exists literal,
    escape timeZone (VNum (NInt z safe)) = Return literal
    /\ read_integer literal = Some z
    /\ (escape timeZone (VNum (NInt z' safe')) = Return literal -> z' = z).
Proof.
  exists (number_to_string (NInt z safe)).
  split; [reflexivity | split; [apply read_integer_numeral|]].
  cbn [escape SqlStringEscape]. intros [= E].
  change (number_to_string (NInt z' safe') = number_to_string (NInt z safe))
    in E.
  pose proof (read_integer_numeral z' safe') as R'.
  rewrite E, read_integer_numeral in R'. now injection R'.
Qed.

(* ================================================================== *)
(** * More on the condition compiler *)

Lemma bind_Return_inv {A B : Type} (c : completion A) (f : A -> B) (b : B) :
  (a <- c ;; Return (f a)) = Return b -> exists a, c = Return a /\ b = f a.
Proof.
  destruct c as [a|e]; simpl; [|discriminate].
  intros [= <-]. now exists a.
Qed.

(** X7.  What the compiler returns is a text or the sentinel [false]: a
    text for a text (the same text), a sequence or an object, the sentinel
    for anything else. *)
Theorem parseCondition_kind (w c : value) :
  parseCondition w = Return c ->
  (condition_shape w = true -> exists s, c = VStr s)
  /\ (condition_shape w = false -> c = VBool false)
  /\ (forall s, w = VStr s -> c = w).
Proof.
  intros P.
  assert (K : (condition_shape w = true /\ exists s, c = VStr s)
              \/ (condition_shape w = false /\ c = VBool false)).
  { destruct w as [| | b | n | s | [t|b|f|m] | l | o];
      try (right; split;
           [unfold condition_shape, object_like; cbn;
            now rewrite ?andb_false_r
           | cbn in P; rewrite ?andb_false_r in P; now injection P]).
    - left. split; [reflexivity|]. exists s. now injection P.
    - left. split; [reflexivity|].
      change (parseCondition (VExotic (Date t)))
        with (s <- parseObjectCondition (VExotic (Date t)) ;;
              Return (VStr s)) in P.
      apply bind_Return_inv in P as [s [_ ->]]. now exists s.
    - left. split; [reflexivity|].
      change (parseCondition (VExotic (Buffer b)))
        with (s <- parseObjectCondition (VExotic (Buffer b)) ;;
              Return (VStr s)) in P.
      apply bind_Return_inv in P as [s [_ ->]]. now exists s.
    - left. split; [reflexivity|].
      change (parseCondition (VExotic (Error m)))
        with (s <- parseObjectCondition (VExotic (Error m)) ;;
              Return (VStr s)) in P.
      apply bind_Return_inv in P as [s [_ ->]]. now exists s.
    - left. split; [reflexivity|].
      change (parseCondition (VArr l))
        with (s <- parseArrayCondition (VArr l) ;; Return (VStr s)) in P.
      apply bind_Return_inv in P as [s [_ ->]]. now exists s.
    - left. split; [reflexivity|].
      change (parseCondition (VObj o))
        with (s <- parseObjectCondition (VObj o) ;; Return (VStr s)) in P.
      apply bind_Return_inv in P as [s [_ ->]]. now exists s. }
  repeat split.
  - intros S. destruct K as [[_ K]|[K _]]; [exact K | congruence].
  - intros S. destruct K as [[K _]|[_ K]]; [congruence | exact K].
  - intros s ->. now injection P.
Qed.

(** X8.  What the compiler returns for a sequence is in parentheses: a
    space and an opening one before, a closing one and a space after. *)
Theorem parseArrayCondition_parentheses (elems : list value) (s : string) :
  parseArrayCondition (VArr elems) = Return s ->
  exists body, s = " (" ++ body ++ ") ".
Proof.
  cbn [parseArrayCondition]. intros P.
  apply (bind_Return_inv _ (fun ret => " (" ++ ret ++ ") ")) in P.
  destruct P as [body [_ ->]]. now exists body.
Qed.

Lemma logical_operands (tag : string) (rest : list value) :
  tag = "$and" \/ tag = "$or" ->
  parseArrayCondition (VArr (VStr tag :: rest))
  = (parts <- mapM parseArrayCondition rest ;;
     Return (" (" ++ join (" " ++ toUpperCase (substr1 tag) ++ " ") parts
             ++ ") ")).
Proof.
  intros [->| ->]; cbn [parseArrayCondition nth is_string ToString]; cbn;
    now rewrite bind_assoc.
Qed.


Lemma mapM_app_Throw {A B : Type} (f : A -> completion B)
  (before after : list A) (x : A) (ys : list B) (e : exn) :
  mapM f before = Return ys -> f x = Throw e ->
  mapM f (before ++ x :: after)%list = Throw e.
Proof.
  revert ys. induction before as [|a l IH]; intros ys; simpl.
  - intros _ ->. reflexivity.
  - destruct (f a) as [b|e']; simpl; [|discriminate].
    destruct (mapM f l) as [bs|e'] eqn:M; simpl; [|discriminate].
    intros _ X. now rewrite (IH bs eq_refl X).
Qed.

(** X10.  A mapping is a condition at the top only: as an operand of
    [$and] or [$or] after operands that compile, or as the operand of
    [$not], it makes the compiler raise. *)
Theorem nested_mapping_raises (before after : list value) (o : props)
  (parts : list string) :
  mapM parseArrayCondition before = Return parts ->
  let raised := Throw (ReferenceError "SqlString is not defined") in
  parseArrayCondition (VArr (VStr "$and" :: before ++ VObj o :: after)%list)
  = raised
  /\ parseArrayCondition (VArr (VStr "$or" :: before ++ VObj o :: after)%list)
     = raised
  /\ parseArrayCondition (VArr (VStr "$not" :: VObj o :: after)) = raised
  /\ parseCondition (VArr (VStr "$and" :: before ++ VObj o :: after)%list)
     = Throw (ReferenceError "SqlString is not defined").
Proof.
  intros M raised.
  assert (T : mapM parseArrayCondition (before ++ VObj o :: after)%list
              = Throw (ReferenceError "SqlString is not defined"))
    by now apply (mapM_app_Throw _ _ _ _ parts).
  assert (A : parseArrayCondition
                (VArr (VStr "$and" :: before ++ VObj o :: after)%list)
              = raised).
  { rewrite (logical_operands "$and") by now left. now rewrite T. }
  repeat split.
  - exact A.
  - rewrite (logical_operands "$or") by now right. now rewrite T.
  - change (parseCondition
              (VArr (VStr "$and" :: before ++ VObj o :: after)%list))
      with (s <- parseArrayCondition
                   (VArr (VStr "$and" :: before ++ VObj o :: after)%list) ;;
            Return (VStr s)).
    now rewrite A.
Qed.

(** X11.  An object with no property to enumerate, such as the empty
    mapping, compiles to the empty text: [delete] and [select] then send a
    statement with nothing between WHERE and the trailing clause. *)
Theorem empty_mapping_where (w : value) (table : string) (fields : value)
  (tail : option string) (callback : callback_t) :
  Array_isArray w = false ->
  object_like w = true ->
  for_in w = [] ->
  parseCondition w = Return (VStr "")
  /\ delete table w tail callback
     = query [VStr ("DELETE FROM `" ++ table ++ "` WHERE  "
                    ++ tail_or_empty tail)] callback
  /\ select table fields w tail callback
     = query [VStr ("SELECT " ++ select_fields fields ++ " FROM `" ++ table
                    ++ "` WHERE  " ++ tail_or_empty tail)] callback.
Proof.
  intros A O F.
  assert (P : parseCondition w = Return (VStr "")).
  { unfold object_like in O. apply andb_true_iff in O as [T Ty].
    apply String.eqb_eq in Ty.
    unfold parseCondition, parseObjectCondition.
    rewrite A, F, T, Ty. reflexivity. }
  split; [exact P|].
  unfold delete, select, delete_sql, select_sql.
  rewrite P, !io_bind_lift_return. split; reflexivity.
Qed.

(* ================================================================== *)
(** * More on the operations *)

(** X12.  When compiling the condition raises, [update], [delete],
    [select] and [selectOne] raise at once: the pool is not asked for a
    connection and the callback is not called, whatever the data. *)
Theorem condition_raises_first (table : string) (fields where_ data : value)
  (tail : option string) (callback : callback_t) (e : exn) :
  parseCondition where_ = Throw e ->
  update table where_ data tail callback = ([], Throw e)
  /\ delete table where_ tail callback = ([], Throw e)
  /\ select table fields where_ tail callback = ([], Throw e)
  /\ selectOne table fields where_ tail callback = ([], Throw e).
Proof.
  intros P. unfold selectOne, select, delete, update. cbv zeta.
  rewrite P. repeat split.
Qed.






(** X14.  [selectOne] hands on an error alone: the pool's error when there
    is no connection, and the driver's error, without the driver's other
    arguments, when the statement fails; when the driver gives no error and
    a falsy result in place of the rows, the result is handed on as the
    row. *)
Theorem selectOne_errors (table : string) (fields where_ c : value)
  (tail : option string) :
  parseCondition where_ = Return c ->
  let err := getConnection_err (_pool this) in
  let sql :=
    select_sql table (select_fields fields) c (selectOne_tail tail) in
  (truthy err = true ->
   selectOne table fields where_ tail caller
   = ([EvGetConnection; EvCallback [err]], Return tt))
  /\ (forall e more,
        truthy err = false ->
        conn_query (_pool this) [VStr sql] = Replies (e :: more) ->
        truthy e = true ->
        selectOne table fields where_ tail caller
        = ([EvGetConnection; EvConnQuery [VStr sql]; EvRelease;
            EvCallback [e]], Return tt))
  /\ (forall e result more,
        truthy err = false ->
        conn_query (_pool this) [VStr sql] = Replies (e :: result :: more) ->
        truthy e = false ->
        truthy result = false ->
        selectOne table fields where_ tail caller
        = ([EvGetConnection; EvConnQuery [VStr sql]; EvRelease;
            EvCallback [VNull; result]], Return tt)).
Proof.
  intros P err sql.
  assert (S : selectOne table fields where_ tail caller
              = query [VStr sql]
                  (fun arguments =>
                     let err := nth 0 arguments VUndefined in
                     let list := nth 1 arguments VUndefined in
                     if truthy err then caller [err]
                     else row <~ lift (first_of list) ;; caller [VNull; row])).
  { unfold selectOne, select. cbv zeta.
    now rewrite P, io_bind_lift_return. }
  rewrite S. unfold query. fold err. repeat split.
  - intros E. rewrite E. cbn [nth]. rewrite E. reflexivity.
  - intros e more E R T. rewrite E, R. cbn. rewrite T. reflexivity.
  - intros e result more E R T F. rewrite E, R. cbn. rewrite T.
    unfold first_of. rewrite F. reflexivity.
Qed.

(** X15.  The trailing clause [selectOne] uses always has a [limit ]
    token, and going through [selectOne] again would leave it as it is. *)
Theorem selectOne_tail_limit (tail : option string) :
  contains_limit (selectOne_tail tail)
  /\ selectOne_tail (Some (selectOne_tail tail)) = selectOne_tail tail.
Proof.
  assert (L : contains_limit (selectOne_tail tail)).
  { unfold selectOne_tail.
    destruct (indexOf (toLowerCase (tail_or_empty tail)) "limit " =? -1)%Z
      eqn:T.
    - exists (tail_or_empty tail ++ " "), "LIMIT ", "1".
      split; [|reflexivity]. now rewrite append_assoc.
    - now apply limit_test. }
  split; [exact L|].
  apply limit_test in L. unfold selectOne_tail at 1.
  cbn [tail_or_empty]. now rewrite L.
Qed.

(* ================================================================== *)
(** * More on insert *)

Lemma put_index_Permutation (n : N) (k : string) (v : value) (o : props) :
  Permutation ((k, v) :: o) (put_index n k v o).
Proof.
  induction o as [|[k' v'] o IH]; simpl; [reflexivity|].
  destruct (array_index k') as [n'|]; [|reflexivity].
  destruct (n <? n')%N; [reflexivity|].
  rewrite perm_swap. now constructor.
Qed.

(** Putting a key that is not there adds it, and nothing else changes. *)
Lemma put_new_Permutation (o : props) (k : string) (v : value) :
  lookup k o = None -> Permutation ((k, v) :: o) (put o k v).
Proof.
  intros L. unfold put. rewrite L.
  destruct (array_index k).
  - apply put_index_Permutation.
  - apply Permutation_cons_append.
Qed.

Lemma lookup_In (o : props) (k : string) (v : value) :
  lookup k o = Some v -> In (k, v) o.
Proof.
  induction o as [|[k' v'] o IH]; simpl; [discriminate|].
  destruct (k =? k') eqn:E.
  - apply String.eqb_eq in E. subst k'. intros [= ->]. now left.
  - intros L. right. now apply IH.
Qed.

Lemma lookup_None_not_In (o : props) (k : string) :
  lookup k o = None -> ~ In k (map fst o).
Proof.
  induction o as [|[k' v'] o IH]; simpl; [tauto|].
  destruct (k =? k') eqn:E; [discriminate|].
  apply String.eqb_neq in E. intros L [K|K]; [congruence | now apply IH].
Qed.

(** One step of the first loop of [insert]. *)
Lemma collect_key (fileds : props) (i : string) :
  key_record fileds ->
  let fileds' := if negb (truthy (get_record fileds i))
                 then put fileds i (VBool true) else fileds in
  key_record fileds'
  /\ forall f, In f (map fst fileds')
               <-> In f (map fst fileds) \/ (f = i /\ inherited i = false).
Proof.
  intros [N T]. unfold get_record.
  destruct (lookup i fileds) as [v|] eqn:L.
  - apply lookup_In in L.
    pose proof (proj1 (Forall_forall _ _) T _ L) as E. cbn [snd] in E.
    subst v. cbn [truthy negb]. cbv zeta.
    split; [now split|]. intros f. split; [now left|].
    intros [I|[-> _]]; [exact I|].
    change i with (fst (i, VBool true)). now apply in_map.
  - destruct (inherited i) eqn:I.
    + assert (Y : truthy (if i =? "__proto__" then VObj []
                          else VExotic (Function i)) = true)
        by now destruct (i =? "__proto__").
      rewrite Y. cbn [negb]. cbv zeta. split; [now split|]. intros f.
      split; [now left | now intros [F|[_ [=]]]].
    + cbn [truthy negb]. cbv zeta.
      pose proof (put_new_Permutation fileds i (VBool true) L) as P.
      split; [split|].
      * apply (Permutation_NoDup (Permutation_map fst P)).
        cbn [map fst]. constructor; [now apply lookup_None_not_In | exact N].
      * apply (Permutation_Forall P). now constructor.
      * intros f. split.
        -- intros F.
           apply (Permutation_in _ (Permutation_sym (Permutation_map fst P)))
             in F.
           destruct F as [<-|F]; [now right | now left].
        -- intros F. apply (Permutation_in _ (Permutation_map fst P)).
           cbn [map fst In]. destruct F as [F|[-> _]]; [now right | now left].
Qed.

Lemma collect_keys (item : value) (fileds : props) :
  key_record fileds ->
  key_record (collect fileds item)
  /\ forall f, In f (map fst (collect fileds item))
               <-> In f (map fst fileds)
                   \/ (In f (for_in item) /\ inherited f = false).
Proof.
  unfold collect. generalize (for_in item) as keys.
  intros keys. revert fileds.
  induction keys as [|i keys IH]; intros fileds K; cbn [fold_left].
  - split; [exact K|]. intros f. split; [now left | now intros [F|[[] _]]].
  - destruct (collect_key fileds i K) as [K' I'].
    destruct (IH _ K') as [K'' I'']. split; [exact K''|].
    intros f. rewrite I'', I'. cbn [In]. split.
    + intros [[F|[-> N]]|[F N]]; [now left | right | right];
        (split; [|exact N]); [now left | now right].
    + intros [F|[[<-|F] N]]; [now left; left | left; right | now right].
      now split.
Qed.

Lemma collect_all (data : list value) (fileds : props) :
  key_record fileds ->
  key_record (fold_left collect data fileds)
  /\ forall f, In f (map fst (fold_left collect data fileds))
               <-> In f (map fst fileds)
                   \/ (inherited f = false
                       /\ exists item, In item data /\ In f (for_in item)).
Proof.
  revert fileds. induction data as [|item data IH]; intros fileds K;
    cbn [fold_left].
  - split; [exact K|]. intros f.
    split; [now left | now intros [F|[_ [item [[] _]]]]].
  - destruct (collect_keys item fileds K) as [K' I'].
    destruct (IH _ K') as [K'' I'']. split; [exact K''|].
    intros f. rewrite I'', I'. split.
    + intros [[F|[F N]]|[N [x [X F]]]]; [now left | right | right];
        (split; [exact N|]); [exists item | exists x]; split;
        (now left) || (now right) || assumption.
    + intros [F|[N [x [[<-|X] F]]]]; [now left; left | now left; right |].
      right. split; [exact N|]. now exists x.
Qed.

Lemma insert_columns_set (data : list value) (f : string) :
  In f (Object_keys (fold_left collect data []))
  <-> inherited f = false
      /\ exists item, In item data /\ In f (for_in item).
Proof.
  assert (K : key_record []) by (split; constructor).
  destruct (collect_all data [] K) as [_ I].
  unfold Object_keys. rewrite I. cbn [map In]. tauto.
Qed.

(** X16.  Whatever the batch, the columns of [insert] are, each once, the
    property names that [for ... in] finds on some item and that are not
    names of members of [Object.prototype]. *)
Theorem insert_columns (data : list value) (f : string) :
  let columns := Object_keys (fold_left collect data []) in
  NoDup columns
  /\ (In f columns
      <-> inherited f = false
          /\ exists item, In item data /\ In f (for_in item)).
Proof.
  assert (K : key_record []) by (split; constructor).
  destruct (collect_all data [] K) as [[N _] I].
  split; [exact N|]. unfold Object_keys. rewrite I. cbn [map In]. tauto.
Qed.

Lemma mapM_Forall2 {A B : Type} (f : A -> completion B) (xs : list A)
  (ys : list B) :
  mapM f xs = Return ys -> Forall2 (fun x y => f x = Return y) xs ys.
Proof.
  revert ys. induction xs as [|x xs IH]; intros ys; simpl.
  - intros [= <-]. constructor.
  - destruct (f x) as [y|e] eqn:F; simpl; [|discriminate].
    destruct (mapM f xs) as [ys'|e]; simpl; [|discriminate].
    intros [= <-]. constructor; [exact F | now apply IH].
Qed.

(** What [insert] escapes is never [NULL], [false] or [0]. *)
Lemma cell_literal (v : value) :
  truthy v = true \/ v = VStr "" ->
  this_escape v <> Return "NULL"
  /\ this_escape v <> Return "false"
  /\ this_escape v <> Return "0".
Proof.
  intros [T| ->]; [|repeat split; discriminate].
  destruct v as [| | b | n | s | [t|b|f|m] | l | o];
    try discriminate T; try (repeat split; discriminate).
  - destruct b; [repeat split; discriminate | discriminate T].
  - destruct n as [z safe| |[|]]; try discriminate T;
      try (repeat split; discriminate).
    pose proof (read_integer_numeral z safe) as R.
    unfold this_escape, escape, SqlStringEscape.
    unfold number_to_string in *.
    repeat split; intros [= E]; rewrite E in R; try discriminate R.
    injection R as R. subst z. discriminate T.
Qed.

Lemma insert_values_lines (fileds : list string) (data : list value)
  (lines : list (list value)) :
  insert_values fileds data = Return lines ->
  Forall (fun line =>
            List.length line = List.length fileds
            /\ Forall (fun v =>
                         (truthy v = true \/ v = VStr "")
                         /\ this_escape v <> Return "NULL"
                         /\ this_escape v <> Return "false"
                         /\ this_escape v <> Return "0") line)
         lines.
Proof.
  intros V. apply mapM_Forall2 in V.
  induction V as [|item line data lines L _ IH]; constructor; [|exact IH].
  apply mapM_Forall2 in L. split; [symmetry; exact (Forall2_length L)|].
  clear IH. induction L as [|f v fs vs F _ IH]; constructor; [|exact IH].
  assert (C : truthy v = true \/ v = VStr "").
  { destruct (get item f) as [x|e]; [|discriminate F].
    injection F as <-. unfold or_empty.
    destruct (truthy x) eqn:T; [now left | now right]. }
  split; [exact C | now apply cell_literal].
Qed.

(** X17.  Whatever the batch, when the lines of [insert] are built there is
    one for each item, each has one value for each column, and each value is
    truthy or the empty text: what [insert] writes for a value is never
    [NULL], [false] or [0]. *)
Theorem insert_values_shape (table : string) (data : list value)
  (lines : list (list value)) :
  let fileds := Object_keys (fold_left collect data []) in
  insert_values fileds data = Return lines ->
  insert_sql table data
  = (values <- mapM (fun line =>
                       cells <- mapM this_escape line ;;
                       Return ("(" ++ join "," cells ++ ")"))
                    lines ;;
     Return ("INSERT INTO `" ++ table ++ "`("
             ++ join "," (map (fun f => "`" ++ f ++ "`") fileds)
             ++ ") VALUES" ++ newline ++ join ("," ++ newline) values))
  /\ List.length lines = List.length data
  /\ Forall (fun line =>
               List.length line = List.length fileds
               /\ Forall (fun v =>
                            (truthy v = true \/ v = VStr "")
                            /\ this_escape v <> Return "NULL"
                            /\ this_escape v <> Return "false"
                            /\ this_escape v <> Return "0") line)
            lines.
Proof.
  intros fileds V. split; [|split].
  - unfold insert_sql. fold fileds.
    change (mapM (fun item =>
                    mapM (fun f => v <- get item f ;; Return (or_empty v))
                         fileds) data)
      with (insert_values fileds data).
    now rewrite V.
  - apply mapM_Forall2 in V. symmetry. exact (Forall2_length V).
  - now apply (insert_values_lines fileds data).
Qed.

Lemma get_returns (o : value) (k : string) :
  o <> VUndefined -> o <> VNull -> exists v, get o k = Return v.
Proof.
  intros U N.
  destruct o as [| | b | n | s | e | l | r]; try contradiction;
    cbn [get]; try (now eexists).
  destruct (array_index k); now eexists.
Qed.

Lemma mapM_returns {A B : Type} (f : A -> completion B) (xs : list A) :
  (forall x, exists y, f x = Return y) -> exists ys, mapM f xs = Return ys.
Proof.
  intros F. induction xs as [|x xs [ys IH]]; simpl; [now eexists|].
  destruct (F x) as [y ->]. rewrite IH. now eexists.
Qed.

Lemma mapM_raises {A B : Type} (f : A -> completion B) (xs : list A)
  (bad : A -> Prop) (raised : exn -> Prop) :
  (forall x, bad x -> exists e, f x = Throw e /\ raised e) ->
  (forall x, ~ bad x -> exists y, f x = Return y) ->
  (forall x, bad x \/ ~ bad x) ->
  (exists x, In x xs /\ bad x) ->
  exists e, mapM f xs = Throw e /\ raised e.
Proof.
  intros Bad Good D. induction xs as [|x xs IH]; intros [z [Z Bz]];
    [contradiction|]. simpl.
  destruct (D x) as [Bx|Gx].
  - destruct (Bad x Bx) as [e [-> R]]. now exists e.
  - destruct (Good x Gx) as [y ->]. simpl.
    destruct Z as [->|Z]; [contradiction|].
    destruct IH as [e [-> R]]; [now exists z|]. now exists e.
Qed.

(** X18.  [insert] checks its first item only: when that item is a mapping
    with a key that becomes a column, and some later item is [null] or
    [undefined], [insert] raises a TypeError at once, without a word to the
    pool or to the callback. *)
Theorem insert_null_item (table : string) (first : props)
  (rest : list value) (k : string) (callback : callback_t) :
  In k (map fst first) ->
  inherited k = false ->
  In VNull rest \/ In VUndefined rest ->
  exists message,
    insert table (VArr (VObj first :: rest)) callback
    = ([], Throw (TypeError message)).
Proof.
  intros K I R.
  set (data := VObj first :: rest).
  set (fileds := Object_keys (fold_left collect data [])).
  assert (F : In k fileds).
  { apply (proj2 (insert_columns_set data k)). split; [exact I|].
    exists (VObj first). split; [now left | exact K]. }
  assert (V : exists e, insert_values fileds data = Throw e
                        /\ exists m, e = TypeError m).
  { unfold insert_values.
    apply (mapM_raises _ _ (fun x => x = VNull \/ x = VUndefined)).
    - destruct fileds as [|f fs]; [contradiction|].
      intros x [->| ->]; eexists; (split; [reflexivity | now eexists]).
    - intros x X. apply mapM_returns. intros f.
      destruct (get_returns x f) as [v ->]; [tauto | tauto | now eexists].
    - intros x. destruct x; (now left; left) || (now left; right)
                            || (right; intros [|]; discriminate).
    - destruct R as [R|R]; eexists; (split; [right; exact R|]);
        [now left | now right]. }
  destruct V as [e [V [m ->]]]. exists m.
  unfold insert. cbn [nth]. fold data.
  change (negb (object_like (VObj first))) with false. cbv iota.
  unfold insert_sql. fold fileds.
  change (mapM (fun item =>
                  mapM (fun f => v <- get item f ;; Return (or_empty v))
                       fileds) data)
    with (insert_values fileds data).
  now rewrite V.
Qed.

(* ================================================================== *)
(** * More on update *)

(** X19.  For data that is a mapping, [update] writes after SET
    [`key`=escape(value)] for each key, in the order in which the mapping
    enumerates them, joined by commas; when a value cannot be escaped it
    raises at once. *)
Theorem update_assignments (table : string) (where_ c : value) (o : props)
  (tail : option string) (callback : callback_t) :
  NoDup (map fst o) ->
  parseCondition where_ = Return c ->
  update table where_ (VObj o) tail callback
  = (set_ <~ lift (mapM (fun kv =>
                           e <- this_escape (snd kv) ;;
                           Return ("`" ++ fst kv ++ "`=" ++ e))
                        o) ;;
     query [VStr ("UPDATE `" ++ table ++ "` SET " ++ join "," set_
                  ++ " WHERE " ++ ToString c ++ " " ++ tail_or_empty tail)]
           callback).
Proof.
  intros N P. unfold update, update_sql. cbv zeta.
  rewrite P, io_bind_lift_return.
  change (negb (object_like (VObj o))) with false. cbv iota.
  assert (S : update_set (VObj o)
              = mapM (fun kv =>
                        e <- this_escape (snd kv) ;;
                        Return ("`" ++ fst kv ++ "`=" ++ e)) o).
  { unfold update_set. cbn [for_in]. rewrite mapM_map.
    apply mapM_ext. intros [k v] I. cbn [get bind fst snd].
    unfold get_record. now rewrite (lookup_NoDup o k v N I). }
  now rewrite S.
Qed.

(* ================================================================== *)
(** * The constructor *)

(** X20.  [new MySQLPool(options)] raises nothing but its own five errors.
    With no options it raises [Invalid host.]; with a mapping it creates
    the pool exactly when [host], [database] and [user] are truthy and
    [port] and [pool] are above zero, handing [mysql.createPool] the five
    options and [pool] as [connectionLimit]; and otherwise it names the
    first of host, port, database, user, pool that is not valid. *)
Theorem MySQLPool_new_outcome (number_above_zero : value -> bool)
  (options : value) (o : props) :
  let create := MySQLPool_new number_above_zero in
  let above := greater_than_zero number_above_zero in
  let at_ := get_record o in
  (exists c, create options = Return c)
  /\ (truthy options = false ->
      create options = Return (ThrowsError "Invalid host."))
  /\ (truthy (at_ "host") && above (at_ "port") && truthy (at_ "database")
      && truthy (at_ "user") && above (at_ "pool") = true
      <-> create (VObj o)
          = Return (Created (VObj o)
                      (VObj [("host", at_ "host"); ("port", at_ "port");
                             ("database", at_ "database");
                             ("user", at_ "user");
                             ("password", at_ "password");
                             ("connectionLimit", at_ "pool")])))
  /\ create (VObj o)
     = Return
         (if negb (truthy (at_ "host")) then ThrowsError "Invalid host."
          else if negb (above (at_ "port")) then ThrowsError "Invalid port."
          else if negb (truthy (at_ "database"))
          then ThrowsError "Invalid database."
          else if negb (truthy (at_ "user")) then ThrowsError "Invalid user."
          else if negb (above (at_ "pool"))
          then ThrowsError "Invalid pool number."
          else Created (VObj o)
                 (VObj [("host", at_ "host"); ("port", at_ "port");
                        ("database", at_ "database"); ("user", at_ "user");
                        ("password", at_ "password");
                        ("connectionLimit", at_ "pool")])).
Proof.
  intros create above at_.
  assert (R : create (VObj o)
     = Return
         (if negb (truthy (at_ "host")) then ThrowsError "Invalid host."
          else if negb (above (at_ "port")) then ThrowsError "Invalid port."
          else if negb (truthy (at_ "database"))
          then ThrowsError "Invalid database."
          else if negb (truthy (at_ "user")) then ThrowsError "Invalid user."
          else if negb (above (at_ "pool"))
          then ThrowsError "Invalid pool number."
          else Created (VObj o)
                 (VObj [("host", at_ "host"); ("port", at_ "port");
                        ("database", at_ "database"); ("user", at_ "user");
                        ("password", at_ "password");
                        ("connectionLimit", at_ "pool")]))).
  { subst create above at_. unfold MySQLPool_new. cbn [truthy get bind].
    destruct (truthy (get_record o "host")); cbn [negb]; [|reflexivity].
    destruct (greater_than_zero _ (get_record o "port")); cbn [negb];
      [|reflexivity].
    destruct (truthy (get_record o "database")); cbn [negb]; [|reflexivity].
    destruct (truthy (get_record o "user")); cbn [negb]; [|reflexivity].
    destruct (greater_than_zero _ (get_record o "pool")); reflexivity. }
  split; [|split; [|split; [|exact R]]].
  - subst create. unfold MySQLPool_new. cbv zeta.
    set (given := if truthy options then options else VObj []).
    assert (G : forall k, exists v, get given k = Return v).
    { intros k. apply get_returns; subst given;
        (destruct (truthy options) eqn:T; [|discriminate]);
        intros ->; discriminate T. }
    destruct (G "host") as [h ->]. cbn [bind].
    destruct (negb (truthy h)); [now eexists|].
    destruct (G "port") as [p ->]. cbn [bind].
    destruct (negb (greater_than_zero _ p)); [now eexists|].
    destruct (G "database") as [d ->]. cbn [bind].
    destruct (negb (truthy d)); [now eexists|].
    destruct (G "user") as [u ->]. cbn [bind].
    destruct (negb (truthy u)); [now eexists|].
    destruct (G "pool") as [n ->]. cbn [bind].
    destruct (negb (greater_than_zero _ n)); [now eexists|].
    destruct (G "password") as [w ->]. now eexists.
  - intros F. subst create. unfold MySQLPool_new. now rewrite F.
  - rewrite R.
    destruct (truthy (at_ "host")); cbn [negb andb];
      [|split; discriminate].
    destruct (above (at_ "port")); cbn [negb andb]; [|split; discriminate].
    destruct (truthy (at_ "database")); cbn [negb andb];
      [|split; discriminate].
    destruct (truthy (at_ "user")); cbn [negb andb]; [|split; discriminate].
    destruct (above (at_ "pool")); cbn [negb]; [|split; discriminate].
    split; reflexivity.
Qed.

End Program.

(* ================================================================== *)
(** * The theorems at work *)

(** [query] when the driver raises: the connection is not released and the
    callback is not called. *)
Lemma query_raises_counterexample :
  let this := serving (Raises (TypeError "write after end")) in
  let r := query this [VStr "SELECT 1"] caller in
  truthy (getConnection_err (_pool this)) = false
  /\ r = ([EvGetConnection; EvConnQuery [VStr "SELECT 1"]],
          Throw (TypeError "write after end"))
  /\ releases (fst r) <> 1
  /\ callbacks (fst r) <> 1.
Proof.
  cbv zeta. repeat split; discriminate.
Qed.

Example query_without_connection :
  query (failing (VExotic (Error "Too many connections")))
        [VStr "SELECT 1"] caller
  = ([EvGetConnection;
      EvCallback [VExotic (Error "Too many connections")]], Return tt).
Proof.
  reflexivity.
Qed.



(** A text compiles to itself, but as an operand of [$and] it is escaped:
    the result is not the compiled operands joined by AND. *)
Lemma logical_operand_counterexample :
  let w := VArr [VStr "$and"; VStr "a>1"; VStr "b<2"] in
  parseCondition plain_host (VStr "a>1") = Return (VStr "a>1")
  /\ parseCondition plain_host (VStr "b<2") = Return (VStr "b<2")
  /\ parseCondition plain_host w = Return (VStr " ('a>1' AND 'b<2') ")
  /\ parseCondition plain_host w
     <> (parts <- mapM (fun v =>
                          c <- parseCondition plain_host v ;;
                          Return (ToString plain_host c))
                       [VStr "a>1"; VStr "b<2"] ;;
         Return (VStr (" (" ++ join " AND " parts ++ ") "))).
Proof.
  cbv zeta. repeat split; discriminate.
Qed.

(** A sequence after IN is compiled as a condition, not escaped as a
    list. *)
Lemma leaf_sequence_counterexample :
  let w := VArr [VStr "a"; VStr "IN"; VArr [int 1; int 2; int 3]] in
  parseArrayCondition plain_host w = Return " (`a` IN  (`1` 2 3) ) "
  /\ parseArrayCondition plain_host w
     <> (r <- escape plain_host VUndefined (VArr [int 1; int 2; int 3]) ;;
         Return (" (`a` IN " ++ r ++ ") "))
  /\ parseArrayCondition plain_host w
     <> Return (" (`a` IN " ++ "(" ++ join "," ["1"; "2"; "3"] ++ ")"
                ++ ") ").
Proof.
  cbv zeta. repeat split; discriminate.
Qed.

Lemma leaf_condition_witness :
  is_tag "b" = false
  /\ parseArrayCondition plain_host (VArr [VStr "b"; VStr ">"; int 2])
     = Return " (`b` > 2) ".
Proof.
  split; [reflexivity|].
  exact (proj2 (leaf_condition plain_host "b" (int 2) VUndefined eq_refl)
               ">" []).
Defined.

(** A key that is an array index comes before a key seen earlier. *)
Lemma insert_index_key_counterexample :
  let this := serving (Replies [VNull]) in
  let rows := [[("b", int 1)]; [("1", int 2)]] in
  column_union rows = ["b"; "1"]
  /\ insert_sql plain_host this "t" (map VObj rows)
     = Return ("INSERT INTO `t`(`1`,`b`) VALUES" ++ newline
               ++ "('',1)," ++ newline ++ "(2,'')")
  /\ insert_sql plain_host this "t" (map VObj rows)
     <> insert_statement plain_host this "t" rows.
Proof.
  cbv zeta. repeat split; discriminate.
Qed.

Lemma insert_columns_and_cells_witness :
  let this := serving (Replies [VNull]) in
  let rows := [[("a", int 1)]; [("b", int 2)]] in
  forallb plain_key (concat (map (map fst) rows)) = true
  /\ insert_sql plain_host this "t" (map VObj rows)
     = insert_statement plain_host this "t" rows
  /\ insert_statement plain_host this "t" rows
     = Return ("INSERT INTO `t`(`a`,`b`) VALUES" ++ newline
               ++ "(1,'')," ++ newline ++ "('',2)").
Proof.
  split; [reflexivity|]. split; [|reflexivity].
  exact (proj1 (insert_columns_and_cells plain_host
                  (serving (Replies [VNull])) "t"
                  [[("a", int 1)]; [("b", int 2)]] caller eq_refl)).
Defined.

(** A key that [Object.prototype] has a member for is not made a column. *)
Example insert_inherited_key :
  insert_sql plain_host (serving (Replies [VNull])) "t"
    [VObj [("constructor", int 1)]]
  = Return ("INSERT INTO `t`() VALUES" ++ newline ++ "()").
Proof.
  reflexivity.
Qed.

(** [update] compiles its condition before it looks at its data. *)
Example update_condition_raises :
  update plain_host (serving (Replies [VNull])) "t"
    (VObj [("a", VArr [])]) (int 5) None caller
  = ([], Throw (ReferenceError "SqlString is not defined")).
Proof.
  reflexivity.
Qed.

(** [update] sends a statement for an empty mapping, and [insert] for a
    batch whose first element is a sequence. *)
Lemma data_format_counterexample :
  let this := serving (Replies [VNull]) in
  update plain_host this "t" (VStr "id=1") (VObj []) None caller
  = ([EvGetConnection; EvConnQuery [VStr "UPDATE `t` SET  WHERE id=1 "];
      EvRelease; EvCallback [VNull]], Return tt)
  /\ insert plain_host this "t" (VArr [VArr [int 1; int 2]]) caller
     = ([EvGetConnection;
         EvConnQuery [VStr ("INSERT INTO `t`(`0`,`1`) VALUES" ++ newline
                            ++ "(1,2)")];
         EvRelease; EvCallback [VNull]], Return tt).
Proof.
  split; reflexivity.
Qed.

Lemma data_format_errors_witness :
  object_like (int 5) = false
  /\ update plain_host (serving (Replies [VNull])) "t" (VStr "id=1") (int 5)
       None caller
     = ([EvCallback [VExotic (Error "Data must be an object.")]], Return tt).
Proof.
  split; [reflexivity|].
  exact (proj2 (proj2 (proj2
    (data_format_errors plain_host (serving (Replies [VNull])) "t" (int 5)
       eq_refl))) (VStr "id=1") (VStr "id=1") None eq_refl).
Defined.

(** A mapping written with the key [b] before the key [1] compiles with
    [1] first. *)
Lemma equality_mapping_counterexample :
  let written := [("b", int 1); ("1", int 2)] in
  object_of written = [("1", int 2); ("b", int 1)]
  /\ parseCondition plain_host (VObj (object_of written))
     = Return (VStr "`1`=2 AND `b`=1")
  /\ parseCondition plain_host (VObj (object_of written))
     <> Return (VStr "`b`=1 AND `1`=2").
Proof.
  cbv zeta. repeat split; discriminate.
Qed.

Lemma NoDup_a_b : NoDup ["a"; "b"].
Proof.
  repeat constructor; simpl; intuition discriminate.
Defined.

Lemma equality_mapping_witness :
  NoDup (map fst [("a", int 1); ("b", VStr "x")])
  /\ parseCondition plain_host (VObj [("a", int 1); ("b", VStr "x")])
     = Return (VStr "`a`=1 AND `b`='x'").
Proof.
  split; [exact NoDup_a_b|].
  exact (proj1 (equality_mapping plain_host
                  [("a", int 1); ("b", VStr "x")] VUndefined NoDup_a_b)).
Defined.

Lemma selectOne_limit_and_first_row_witness :
  let this := serving (Replies two_rows) in
  parseCondition plain_host (VObj [("id", int 1)]) = Return (VStr "`id`=1")
  /\ truthy (getConnection_err (_pool this)) = false
  /\ selectOne_tail None = " LIMIT 1"
  /\ selectOne_tail (Some "ORDER BY id LIMIT 5") = "ORDER BY id LIMIT 5"
  /\ selectOne plain_host this "t" (VStr "*") (VObj [("id", int 1)]) None
       caller
     = ([EvGetConnection;
         EvConnQuery [VStr "SELECT * FROM `t` WHERE `id`=1  LIMIT 1"];
         EvRelease; EvCallback [VNull; VObj [("id", int 1)]]], Return tt).
Proof.
  cbv zeta. repeat (split; [reflexivity|]).
  exact (proj1 (proj2 (proj2
    (selectOne_limit_and_first_row plain_host (serving (Replies two_rows))
       "t" (VStr "*") (VObj [("id", int 1)]) (VStr "`id`=1") VNull None
       [VObj [("id", int 1)]; VObj [("id", int 2)]] []
       eq_refl eq_refl eq_refl eq_refl)))).
Defined.

(* ================================================================== *)
(** * The further properties at work *)

Lemma escape_text_in_context_witness :
  starts_with_quote " AND `b`=1" = false
  /\ exists literal,
       escape plain_host VUndefined (VStr "O'Neil") = Return literal
       /\ read_literal (literal ++ " AND `b`=1")
          = Some ("O'Neil", " AND `b`=1").
Proof.
  split; [reflexivity|].
  exact (escape_text_in_context plain_host "O'Neil" " AND `b`=1" VUndefined
           eq_refl).
Defined.

Lemma escape_text_injective_witness :
  escape plain_host VUndefined (VStr "a\b")
  = escape plain_host VUndefined (VStr "a\b")
  /\ "a\b" = "a\b".
Proof.
  split; [reflexivity|].
  exact (escape_text_injective plain_host "a\b" "a\b" VUndefined eq_refl).
Defined.

Lemma parseCondition_kind_witness :
  parseCondition plain_host (int 5) = Return (VBool false)
  /\ (condition_shape (int 5) = false -> VBool false = VBool false).
Proof.
  split; [reflexivity|].
  exact (proj1 (proj2
    (parseCondition_kind plain_host (int 5) (VBool false) eq_refl))).
Defined.

Lemma parseArrayCondition_parentheses_witness :
  parseArrayCondition plain_host (VArr [VStr "id > 5"])
  = Return " (id > 5) "
  /\ exists body, " (id > 5) " = " (" ++ body ++ ") ".
Proof.
  split; [reflexivity|].
  exact (parseArrayCondition_parentheses plain_host [VStr "id > 5"]
           " (id > 5) " eq_refl).
Defined.

Lemma nested_mapping_raises_witness :
  mapM (parseArrayCondition plain_host) [VArr [VStr "a"; int 1]]
  = Return [" (`a`=1) "]
  /\ parseCondition plain_host
       (VArr [VStr "$and"; VArr [VStr "a"; int 1]; VObj [("b", int 2)]])
     = Throw (ReferenceError "SqlString is not defined").
Proof.
  split; [reflexivity|].
  exact (proj2 (proj2 (proj2
    (nested_mapping_raises plain_host [VArr [VStr "a"; int 1]] []
       [("b", int 2)] [" (`a`=1) "] eq_refl)))).
Defined.

Lemma empty_mapping_where_witness :
  Array_isArray (VObj []) = false
  /\ object_like (VObj []) = true
  /\ for_in plain_host (VObj []) = []
  /\ delete plain_host (serving (Replies [VNull])) "t" (VObj []) None caller
     = query (serving (Replies [VNull]))
         [VStr "DELETE FROM `t` WHERE  "] caller.
Proof.
  repeat (split; [reflexivity|]).
  exact (proj1 (proj2
    (empty_mapping_where plain_host (serving (Replies [VNull])) (VObj [])
       "t" (VStr "*") None caller eq_refl eq_refl eq_refl))).
Defined.

Lemma condition_raises_first_witness :
  parseCondition plain_host (VObj [("a", VArr [])])
  = Throw (ReferenceError "SqlString is not defined")
  /\ delete plain_host (serving (Replies [VNull])) "t"
       (VObj [("a", VArr [])]) None caller
     = ([], Throw (ReferenceError "SqlString is not defined")).
Proof.
  split; [reflexivity|].
  exact (proj1 (proj2
    (condition_raises_first plain_host (serving (Replies [VNull])) "t"
       (VStr "*") (VObj [("a", VArr [])]) VNull None caller
       (ReferenceError "SqlString is not defined") eq_refl))).
Defined.

Lemma selectOne_errors_witness :
  let this := failing (VExotic (Error "Too many connections")) in
  parseCondition plain_host (VStr "id=1") = Return (VStr "id=1")
  /\ truthy (getConnection_err (_pool this)) = true
  /\ selectOne plain_host this "t" (VStr "*") (VStr "id=1") None caller
     = ([EvGetConnection;
         EvCallback [VExotic (Error "Too many connections")]], Return tt).
Proof.
  cbv zeta. repeat (split; [reflexivity|]).
  exact (proj1
    (selectOne_errors plain_host
       (failing (VExotic (Error "Too many connections"))) "t" (VStr "*")
       (VStr "id=1") (VStr "id=1") None eq_refl) eq_refl).
Defined.

Lemma insert_values_shape_witness :
  let this := serving (Replies [VNull]) in
  let data := [VObj [("a", int 0)]; VObj [("b", VNull)]] in
  insert_values plain_host ["a"; "b"] data
  = Return [[VStr ""; VStr ""]; [VStr ""; VStr ""]]
  /\ List.length [[VStr ""; VStr ""]; [VStr ""; VStr ""]]
     = List.length data.
Proof.
  cbv zeta. split; [reflexivity|].
  exact (proj1 (proj2
    (insert_values_shape plain_host (serving (Replies [VNull])) "t"
       [VObj [("a", int 0)]; VObj [("b", VNull)]]
       [[VStr ""; VStr ""]; [VStr ""; VStr ""]] eq_refl))).
Defined.

Lemma insert_null_item_witness :
  In "a" (map fst [("a", int 1)])
  /\ inherited "a" = false
  /\ (In VNull [VNull] \/ In VUndefined [VNull])
  /\ exists message,
       insert plain_host (serving (Replies [VNull])) "t"
         (VArr [VObj [("a", int 1)]; VNull]) caller
       = ([], Throw (TypeError message)).
Proof.
  split; [now left|]. split; [reflexivity|].
  split; [left; now left|].
  exact (insert_null_item plain_host (serving (Replies [VNull])) "t"
           [("a", int 1)] [VNull] "a" caller
           (or_introl eq_refl) eq_refl (or_introl (or_introl eq_refl))).
Defined.

Lemma update_assignments_witness :
  NoDup (map fst [("a", int 1); ("b", VStr "x")])
  /\ parseCondition plain_host (VStr "id=1") = Return (VStr "id=1")
  /\ update plain_host (serving (Replies [VNull])) "t" (VStr "id=1")
       (VObj [("a", int 1); ("b", VStr "x")]) None caller
     = query (serving (Replies [VNull]))
         [VStr "UPDATE `t` SET `a`=1,`b`='x' WHERE id=1 "] caller.
Proof.
  split; [exact NoDup_a_b|]. split; [reflexivity|].
  exact (update_assignments plain_host (serving (Replies [VNull])) "t"
           (VStr "id=1") (VStr "id=1") [("a", int 1); ("b", VStr "x")] None
           caller NoDup_a_b eq_refl).
Defined.

Lemma escape_integer_witness :
  safe_integer (-42) = true
  /\ safe_integer 7 = true
  /\ exists literal,
       escape plain_host VUndefined (int (-42)) = Return literal
       /\ read_integer literal = Some (-42)%Z
       /\ (escape plain_host VUndefined (int 7) = Return literal
           -> 7%Z = (-42)%Z).
Proof.
  split; [reflexivity|]. split; [reflexivity|].
  exact (escape_integer plain_host (-42) 7 eq_refl eq_refl VUndefined).
Defined.
